(** * detect_and_track: bounding-box glue between detector, localizer and trackers

    Shallow embedding of [DetectionUtils.cpp] ([Detect], [Locate], [Track2D],
    [Track3D]) and of the in-image tracking ROS node ([ROSDetector]).

    Numbers.  The C++ [float] is read as an exact rational ([Q]): sums,
    differences, products and quotients are the mathematical ones, no
    rounding, no NaN, no infinities.  Everything proved below about
    arithmetic is a statement about the formulas of the code, not about their
    IEEE-754 rounding.  [int] fields are [Z], [unsigned int] counters and
    vector indices are [nat].

    Vectors.  [std::vector] is a [list]; [v[i]] is the stdpp lookup
    [v !! i].  [operator[]] does no bounds check in C++ and an access out of
    range is undefined behaviour: the embedding runs in [option] and such an
    access is [None].  [None] says that a run leaves the range of a vector,
    not what the machine does from there on; [Some] is a run with every
    access in range, and its value is what the code computes.

    Uninitialised locals.  A loop counter declared without initialiser
    ([for (unsigned int i; ...)]) starts from whatever value its storage
    holds; the embedding takes that value as an extra argument. *)

From Stdlib Require Import QArith Qround Lqa Lia.
From stdpp Require Import base option list gmap strings sorting pretty.

Open Scope Q_scope.

(** ** Floats, vectors, loops *)

Module Float.

(** [a > b] and [a < b] on floats, as the tests of the code use them. *)
Definition gtb (a b : Q) : bool := negb (Qle_bool a b).
Definition ltb (a b : Q) : bool := negb (Qle_bool b a).

(** [std::max] and [std::min] on floats: [max(a,b)] is [(a < b) ? b : a],
    [min(a,b)] is [(b < a) ? b : a]. *)
Definition max (a b : Q) : Q := if ltb a b then b else a.
Definition min (a b : Q) : Q := if ltb b a then b else a.

(** Conversion of an [int] to [float]. *)
Definition of_int (z : Z) : Q := inject_Z z.

End Float.

Module Vec.

(** [v[i][j]] on a vector of vectors. *)
Definition at2 {A} (v : list (list A)) (i j : nat) : option A :=
  match v !! i with
  | Some row => row !! j
  | None => None
  end.

(** [v[i] = x] on a vector: defined only inside the bounds. *)
Definition write {A} (v : list A) (i : nat) (x : A) : option (list A) :=
  if decide (i < length v)%nat then Some (<[i := x]> v) else None.

(** [v[i][j] = x]. *)
Definition write2 {A} (v : list (list A)) (i j : nat) (x : A)
  : option (list (list A)) :=
  match v !! i with
  | Some row =>
      match write row j x with
      | Some row' => Some (<[i := row']> v)
      | None => None
      end
  | None => None
  end.

End Vec.

Module Loop.

(** [n] rounds of a loop body whose counter is [k] at the first round;
    a round that faults ends the run. *)
Fixpoint iter {St} (n k : nat) (body : nat -> St -> option St) (s : St)
  : option St :=
  match n with
  | O => Some s
  | S n' =>
      match body k s with
      | Some s' => iter n' (S k) body s'
      | None => None
      end
  end.

(** [for (unsigned int k = start; k < bound; k++) body]. The counter only
    grows, so the loop runs [bound - start] rounds (none when
    [bound <= start]). *)
Definition for_ {St} (start bound : nat) (body : nat -> St -> option St)
                (s : St) : option St :=
  iter (bound - start) start body s.

End Loop.

(** ** Bounding boxes *)

(** Modelled from the spec: the class declarations of [BoundingBox] and
    [BoundingBox3D] (header [ObjectDetection.h]) are not among the sources.
    The fields are the members the code reads and writes, with the types the
    spec's data model gives them. *)
Record BoundingBox := mkBoundingBox {
  x_ : Q; y_ : Q; w_ : Q; h_ : Q;
  x_min_ : Q; x_max_ : Q; y_min_ : Q; y_max_ : Q;
  confidence_ : Q; class_id_ : nat; valid_ : bool
}.

Module BB.
Definition set_x (v : Q) (b : BoundingBox) : BoundingBox :=
  mkBoundingBox v (y_ b) (w_ b) (h_ b) (x_min_ b) (x_max_ b) (y_min_ b)
                (y_max_ b) (confidence_ b) (class_id_ b) (valid_ b).
Definition set_y (v : Q) (b : BoundingBox) : BoundingBox :=
  mkBoundingBox (x_ b) v (w_ b) (h_ b) (x_min_ b) (x_max_ b) (y_min_ b)
                (y_max_ b) (confidence_ b) (class_id_ b) (valid_ b).
Definition set_w (v : Q) (b : BoundingBox) : BoundingBox :=
  mkBoundingBox (x_ b) (y_ b) v (h_ b) (x_min_ b) (x_max_ b) (y_min_ b)
                (y_max_ b) (confidence_ b) (class_id_ b) (valid_ b).
Definition set_h (v : Q) (b : BoundingBox) : BoundingBox :=
  mkBoundingBox (x_ b) (y_ b) (w_ b) v (x_min_ b) (x_max_ b) (y_min_ b)
                (y_max_ b) (confidence_ b) (class_id_ b) (valid_ b).
Definition set_x_min (v : Q) (b : BoundingBox) : BoundingBox :=
  mkBoundingBox (x_ b) (y_ b) (w_ b) (h_ b) v (x_max_ b) (y_min_ b)
                (y_max_ b) (confidence_ b) (class_id_ b) (valid_ b).
Definition set_x_max (v : Q) (b : BoundingBox) : BoundingBox :=
  mkBoundingBox (x_ b) (y_ b) (w_ b) (h_ b) (x_min_ b) v (y_min_ b)
                (y_max_ b) (confidence_ b) (class_id_ b) (valid_ b).
Definition set_y_min (v : Q) (b : BoundingBox) : BoundingBox :=
  mkBoundingBox (x_ b) (y_ b) (w_ b) (h_ b) (x_min_ b) (x_max_ b) v
                (y_max_ b) (confidence_ b) (class_id_ b) (valid_ b).
Definition set_y_max (v : Q) (b : BoundingBox) : BoundingBox :=
  mkBoundingBox (x_ b) (y_ b) (w_ b) (h_ b) (x_min_ b) (x_max_ b) (y_min_ b)
                v (confidence_ b) (class_id_ b) (valid_ b).
End BB.

(** The invariant the data model asks of a valid box. *)
Definition bbox_invariant (b : BoundingBox) : Prop :=
  0 < w_ b /\ 0 < h_ b /\ x_min_ b <= x_max_ b /\ y_min_ b <= y_max_ b.

(** ** Detect *)

Module Detect.

Record t := mk {
  image_rows_ : Z; image_cols_ : Z; image_size_ : Z; num_classes_ : nat;
  r_ : Q; padding_rows_ : Z; padding_cols_ : Z
}.

(** [Detect::buildDetect] (the constructor has the same body): sets the
    image geometry and leaves [r_] and the paddings as they are. *)
Definition buildDetect (image_height image_width : Z) (num_classes : nat)
                       (d : t) : t :=
  mk image_height image_width (Z.max image_width image_height) num_classes
     (r_ d) (padding_rows_ d) (padding_cols_ d).

Section PadImage.
(** Size of the image [cv::resize(image, tmp, cv::Size(), r, r, ...)]
    returns for a side of [n] pixels.  OpenCV is not part of the
    repository: the rounding is left open. *)
Variable resized_side : Q -> Z -> Z.

(** [Detect::padImage] on an image of [rows] x [cols] pixels; the pixel
    copy is left out, the geometry it records is kept. *)
Definition padImage (rows cols : Z) (d : t) : t :=
  let r := Float.of_int (image_size_ d) / Float.of_int (Z.max rows cols) in
  let tmp_rows := resized_side r rows in
  let tmp_cols := resized_side r cols in
  mk (image_rows_ d) (image_cols_ d) (image_size_ d) (num_classes_ d)
     r
     (Z.quot (image_size_ d - tmp_rows) 2)
     (Z.quot (image_size_ d - tmp_cols) 2).
End PadImage.

(** The body of the two loops of [Detect::adjustBoundingBoxes] once the
    box is known to be valid: the assignments in the order of the code,
    each reading the fields as the previous ones left them. *)
Definition adjust_valid (d : t) (b : BoundingBox) : BoundingBox :=
  let b := BB.set_x (x_ b - Float.of_int (padding_cols_ d)) b in
  let b := BB.set_y (y_ b - Float.of_int (padding_rows_ d)) b in
  let b := BB.set_x (x_ b / r_ d) b in
  let b := BB.set_y (y_ b / r_ d) b in
  let b := BB.set_x_min (x_ b - w_ b / (2 * r_ d)) b in
  let b := BB.set_x_max (x_ b + w_ b / (2 * r_ d)) b in
  let b := BB.set_y_min (y_ b - h_ b / (2 * r_ d)) b in
  let b := BB.set_y_max (y_ b + h_ b / (2 * r_ d)) b in
  let b := BB.set_h (h_ b / r_ d) b in
  let b := BB.set_w (w_ b / r_ d) b in
  b.

(** One round of the inner loop: [if (!valid_) continue;] then the
    assignments, written back to [bboxes[i][j]]. *)
Definition adjust_step (d : t) (i j : nat) (bboxes : list (list BoundingBox))
  : option (list (list BoundingBox)) :=
  match Vec.at2 bboxes i j with
  | Some b =>
      if negb (valid_ b) then Some bboxes
      else Vec.write2 bboxes i j (adjust_valid d b)
  | None => None
  end.

(** [Detect::adjustBoundingBoxes]. *)
Definition adjustBoundingBoxes (d : t) (bboxes : list (list BoundingBox))
  : option (list (list BoundingBox)) :=
  Loop.for_ 0 (length bboxes)
    (fun i bbs =>
       match bbs !! i with
       | Some row => Loop.for_ 0 (length row) (adjust_step d i) bbs
       | None => None
       end)
    bboxes.

(** What the loop does to one box. *)
Definition adjust_box (d : t) (b : BoundingBox) : BoundingBox :=
  if valid_ b then adjust_valid d b else b.

End Detect.

(** ** Drawing the raw detections *)

(** What the drawing loops ask of OpenCV, in the order they ask it.  The
    colour is the index into [ColorPalette], the label the index into the
    class map; the float-to-int conversions of [cv::Rect] and [cv::Point]
    are not modelled. *)
Inductive DrawOp :=
| Rectangle (x y w h : Q) (color : nat)
| PutText (label : nat) (x y : Q) (color : nat).

Module Draw.

(** The body of the inner loop, shared by the three drawing loops:
    [if (!bboxes[i][j].valid_) continue;] then a rectangle and a label. *)
Definition step (rect_color : nat -> nat) (bboxes : list (list BoundingBox))
                (i j : nat) (image : list DrawOp) : option (list DrawOp) :=
  match Vec.at2 bboxes i j with
  | Some b =>
      if negb (valid_ b) then Some image
      else Some (image ++ [Rectangle (x_min_ b) (y_min_ b) (w_ b) (h_ b)
                                     (rect_color i);
                           PutText i (x_min_ b) (y_min_ b - 10) i])
  | None => None
  end.

(** The two nested loops; [inner_bound] is the bound of [j] in terms of
    [bboxes[i].size()]. *)
Definition loops (inner_bound : nat -> nat) (rect_color : nat -> nat)
                 (bboxes : list (list BoundingBox)) (image : list DrawOp)
  : option (list DrawOp) :=
  Loop.for_ 0 (length bboxes)
    (fun i img =>
       match bboxes !! i with
       | Some row =>
           Loop.for_ 0 (inner_bound (length row)) (step rect_color bboxes i) img
       | None => None
       end)
    image.

(** The pairs [(i, j)] for which the loops evaluate [bboxes[i][j]] when no
    access faults. *)
Definition reads (inner_bound : nat -> nat) (bboxes : list (list BoundingBox))
  : list (nat * nat) :=
  concat (imap (fun i row => (fun j => (i, j)) <$> seq 0 (inner_bound (length row)))
               bboxes).

(** [Detect::generateDetectionImage]: [j < bboxes[i].size()+1], rectangle
    in [ColorPalette[0]]. *)
Definition generateDetectionImage := loops (fun n => n + 1)%nat (fun _ => O).

(** The drawing loop of [ROSDetector::imageCallback] in the in-image
    tracking node: the same text. *)
Definition in_image_node_loop := loops (fun n => n + 1)%nat (fun _ => O).

(** The drawing loop of [ROSDetector::imageCallback] in the global
    tracking node: [j < bboxes[i].size()], rectangle in [ColorPalette[i]]. *)
Definition global_node_loop := loops (fun n => n) (fun i => i).

End Draw.

(** ** Locate *)

Module BoundingBox3D.
Record t := mk {
  x_ : Q; y_ : Q; z_ : Q; w_ : Q; d_ : Q; h_ : Q;
  confidence_ : Q; class_id_ : nat; valid_ : bool
}.
End BoundingBox3D.

Module Locate.

(** Modelled from the spec: [PoseEstimator] is not among the sources;
    [getFx] and [getFy] return the focal lengths of the pinhole
    intrinsics. *)
Record PoseEstimator := { getFx : Q; getFy : Q }.

Section Make3D.
(** Modelled from the spec: the constructor
    [BoundingBox3D(x, y, z, w, d, h, confidence, class_id)] is not among
    the sources.  It stores center, extents, confidence and class id in
    the order the data model lists them; the flag it gives a new box is
    left open. *)
Variable fresh_valid : bool.

Definition new_BoundingBox3D (x y z w d h conf : Q) (cls : nat)
  : BoundingBox3D.t :=
  BoundingBox3D.mk x y z w d h conf cls fresh_valid.

Variable PE_ : PoseEstimator.

(** One round of the inner loop of [Locate::make3DBoundingBoxes]. *)
Definition make3D_step (points : list (list (list Q)))
                       (bboxes : list (list BoundingBox)) (i j : nat)
                       (tmp_bboxes3D : list BoundingBox3D.t)
  : option (list BoundingBox3D.t) :=
  p ← Vec.at2 points i j;
  b ← Vec.at2 bboxes i j;
  p2 ← p !! 2%nat;
  let new_w := p2 * w_ b / getFx PE_ in
  let new_h := p2 * h_ b / getFy PE_ in
  p0 ← p !! 0%nat;
  p1 ← p !! 1%nat;
  Some (tmp_bboxes3D ++
        [new_BoundingBox3D p0 p1 p2 new_w new_w new_h
                           (confidence_ b) (class_id_ b)]).

(** [Locate::make3DBoundingBoxes]: the value of [bboxes3D] on return. *)
Definition make3DBoundingBoxes (points : list (list (list Q)))
                               (bboxes : list (list BoundingBox))
  : option (list (list BoundingBox3D.t)) :=
  Loop.for_ 0 (length points)
    (fun i bboxes3D =>
       row ← points !! i;
       tmp ← Loop.for_ 0 (length row) (make3D_step points bboxes i) [];
       Some (bboxes3D ++ [tmp]))
    [].
End Make3D.

End Locate.

(** ** Parameter structures *)

(** Modelled from the spec: the parameter structures are declared in a
    header that is not among the sources; the fields are the ones the
    constructors read.  [KalmanParameters::Q] and [::R] are called [Q_diag]
    and [R_diag] here, [Q] being the type of the rationals. *)
Record DetectionParameters := {
  num_classes : nat; class_map : list string
}.
Record KalmanParameters := {
  Q_diag : list Q; R_diag : list Q; use_dim : bool; use_vel : bool
}.
Record TrackingParameters := {
  distance_thresh : Q; center_thresh : Q; area_thresh : Q; body_ratio : Q;
  dt : Q; max_frames_to_skip : Z
}.
Record BBoxRejectionParameters := {
  min_bbox_width : Q; max_bbox_width : Q;
  min_bbox_height : Q; max_bbox_height : Q
}.

(** ** Per-class trackers *)

(** [std::map<unsigned int, std::vector<float>>]: track id to state. *)
Abbreviation TrackerStates := (gmap nat (list Q)).

(** [Tracker2D] and [Tracker3D] ([Tracker.cpp]) are not among the sources.
    What [Track2D] and [Track3D] use of them is an interface: the
    constructor, [update(dt, states)] and [getStates(map)]. *)
Class Tracker (Tr : Type) := {
  new_Tracker : Z -> Q -> Q -> Q -> Q -> Q -> bool -> bool -> list Q -> list Q -> Tr;
  update : Q -> list (list Q) -> Tr -> Tr;
  getStates : Tr -> TrackerStates -> TrackerStates
}.

(** ** Track2D and Track3D *)

Module Track.
Section Fields.
Context {Tr : Type} `{Tracker Tr}.

(** The members [Track2D] and [Track3D] both declare. *)
Record t := mk {
  Q_ : list Q; R_ : list Q;
  dist_threshold_ : Q; center_threshold_ : Q; area_threshold_ : Q;
  body_ratio_ : Q; use_dim_ : bool; use_vel_ : bool; dt_ : Q;
  max_frames_to_skip_ : Z;
  min_bbox_width_ : Q; max_bbox_width_ : Q;
  min_bbox_height_ : Q; max_bbox_height_ : Q;
  class_map_ : list string;
  Trackers_ : list Tr
}.

(** The body that [Track2D::Track2D], [Track2D::buildTrack2D],
    [Track3D::Track3D] and [Track3D::buildTrack3D] share, assignment by
    assignment; [Trackers_] grows by one tracker per class. *)
Definition build (det_p : DetectionParameters) (kal_p : KalmanParameters)
                 (tra_p : TrackingParameters)
                 (bbo_p : BBoxRejectionParameters)
                 (old_Trackers : list Tr) : t :=
  let Q_ := Q_diag kal_p in
  let R_ := R_diag kal_p in
  let dist_threshold_ := distance_thresh tra_p in
  let center_threshold_ := center_thresh tra_p in
  let area_threshold_ := area_thresh tra_p in
  let body_ratio_ := body_ratio tra_p in
  let use_dim_ := use_dim kal_p in
  let use_vel_ := use_vel kal_p in
  let dt_ := dt tra_p in
  let max_frames_to_skip_ := max_frames_to_skip tra_p in
  let min_bbox_width_ := min_bbox_width bbo_p in
  let max_bbox_width_ := max_bbox_width bbo_p in
  let min_bbox_height_ := min_bbox_height bbo_p in
  let max_bbox_height_ := max_bbox_width bbo_p in
  let class_map_ := class_map det_p in
  mk Q_ R_ dist_threshold_ center_threshold_ area_threshold_ body_ratio_
     use_dim_ use_vel_ dt_ max_frames_to_skip_
     min_bbox_width_ max_bbox_width_ min_bbox_height_ max_bbox_height_
     class_map_
     (old_Trackers ++
      replicate (num_classes det_p)
        (new_Tracker max_frames_to_skip_ dist_threshold_ center_threshold_
                     area_threshold_ body_ratio_ dt_ use_dim_ use_vel_
                     Q_ R_)).

(** The constructors start from an object without trackers. *)
Definition new det_p kal_p tra_p bbo_p : t :=
  build det_p kal_p tra_p bbo_p [].

(** The four size tests of [cast2states], in the order of the code:
    [true] when one of them says [continue]. *)
Definition rejects (T : t) (w h : Q) : bool :=
  if Float.gtb h (max_bbox_height_ T) then true
  else if Float.gtb w (max_bbox_width_ T) then true
  else if Float.ltb h (min_bbox_height_ T) then true
  else if Float.ltb w (min_bbox_width_ T) then true
  else false.

(** The loop of [Track2D::track] and [Track3D::track] over
    [tracker_states], given the states [cast2states] produced. *)
Definition track_step (time_step : Q) (states : list (list (list Q)))
                      (i : nat) (s : list Tr * list TrackerStates)
  : option (list Tr * list TrackerStates) :=
  states_to_track ← states !! i;
  tr ← s.1 !! i;
  let tr' := update time_step states_to_track tr in
  ts ← s.2 !! i;
  Some (<[i := tr']> s.1, <[i := getStates tr' ts]> s.2).

Definition track_loop (time_step : Q) (states : list (list (list Q)))
                      (trackers : list Tr)
                      (tracker_states : list TrackerStates)
  : option (list Tr * list TrackerStates) :=
  Loop.for_ 0 (length tracker_states) (track_step time_step states)
            (trackers, tracker_states).
End Fields.
Arguments t Tr : clear implicits.
End Track.

Module Track2D.
Section WithTracker.
Context {Tr : Type} `{Tracker Tr}.

(** The assignments [state[0] = ...; ...; state[5] = ...] of
    [Track2D::cast2states]. *)
Definition fill_state (b : BoundingBox) (state : list Q)
  : option (list Q) :=
  state ← Vec.write state 0 (x_ b);
  state ← Vec.write state 1 (y_ b);
  state ← Vec.write state 2 0;
  state ← Vec.write state 3 0;
  state ← Vec.write state 4 (w_ b);
  Vec.write state 5 (h_ b).

(** One round of the inner loop; the loop state is [state] and
    [state_vec]. *)
Definition cast_step (T : Track.t Tr) (bboxes : list (list BoundingBox))
                     (i j : nat) (s : list Q * list (list Q))
  : option (list Q * list (list Q)) :=
  b ← Vec.at2 bboxes i j;
  if negb (valid_ b) then Some s
  else if Track.rejects T (w_ b) (h_ b) then Some s
  else
    state ← fill_state b s.1;
    Some (state, s.2 ++ [state]).

(** [Track2D::cast2states]: the value of [states] on return.  [i0] is
    the value the counter [i] holds when the outer loop is entered and
    [j0 i] the value [j] holds when the inner loop is entered for class
    [i]: the code declares both without initialiser. *)
Definition cast2states (T : Track.t Tr) (i0 : nat) (j0 : nat -> nat)
                       (bboxes : list (list BoundingBox))
  : option (list (list (list Q))) :=
  r ← Loop.for_ i0 (length bboxes)
        (fun i (s : list Q * list (list (list Q))) =>
           row ← bboxes !! i;
           inner ← Loop.for_ (j0 i) (length row) (cast_step T bboxes i)
                             (s.1, []);
           Some (inner.1, s.2 ++ [inner.2]))
        (replicate 6 0, []);
  Some r.2.

(** [Track2D::track(bboxes, tracker_states, dt)]: the trackers and the
    tracker states on return. *)
Definition track_dt (T : Track.t Tr) (i0 : nat) (j0 : nat -> nat)
                    (bboxes : list (list BoundingBox))
                    (tracker_states : list TrackerStates) (time_step : Q)
  : option (list Tr * list TrackerStates) :=
  states ← cast2states T i0 j0 bboxes;
  Track.track_loop time_step states (Track.Trackers_ T) tracker_states.

(** [Track2D::track(bboxes, tracker_states)]: the same with [dt_]. *)
Definition track (T : Track.t Tr) (i0 : nat) (j0 : nat -> nat)
                 (bboxes : list (list BoundingBox))
                 (tracker_states : list TrackerStates)
  : option (list Tr * list TrackerStates) :=
  track_dt T i0 j0 bboxes tracker_states (Track.dt_ T).
End WithTracker.
End Track2D.

Module Track3D.
Section WithTracker.
Context {Tr : Type} `{Tracker Tr}.

(** The assignments [state[0] = ...; ...; state[8] = ...] of
    [Track3D::cast2states]. *)
Definition fill_state (b : BoundingBox3D.t) (state : list Q)
  : option (list Q) :=
  state ← Vec.write state 0 (BoundingBox3D.x_ b);
  state ← Vec.write state 1 (BoundingBox3D.y_ b);
  state ← Vec.write state 2 (BoundingBox3D.z_ b);
  state ← Vec.write state 3 0;
  state ← Vec.write state 4 0;
  state ← Vec.write state 5 0;
  state ← Vec.write state 6 (BoundingBox3D.w_ b);
  state ← Vec.write state 7 (BoundingBox3D.d_ b);
  Vec.write state 8 (BoundingBox3D.h_ b).

Definition cast_step (T : Track.t Tr) (bboxes : list (list BoundingBox3D.t))
                     (i j : nat) (s : list Q * list (list Q))
  : option (list Q * list (list Q)) :=
  b ← Vec.at2 bboxes i j;
  if negb (BoundingBox3D.valid_ b) then Some s
  else if Track.rejects T (BoundingBox3D.w_ b) (BoundingBox3D.h_ b)
       then Some s
  else
    state ← fill_state b s.1;
    Some (state, s.2 ++ [state]).

(** The length [std::vector<float> state(6)] is given. *)
Definition state_size : nat := 6.

(** [Track3D::cast2states]; [i0] and [j0] as in [Track2D]. *)
Definition cast2states (T : Track.t Tr) (i0 : nat) (j0 : nat -> nat)
                       (bboxes : list (list BoundingBox3D.t))
  : option (list (list (list Q))) :=
  r ← Loop.for_ i0 (length bboxes)
        (fun i (s : list Q * list (list (list Q))) =>
           row ← bboxes !! i;
           inner ← Loop.for_ (j0 i) (length row) (cast_step T bboxes i)
                             (s.1, []);
           Some (inner.1, s.2 ++ [inner.2]))
        (replicate state_size 0, []);
  Some r.2.
End WithTracker.
End Track3D.

(** ** The in-image tracking node *)

Module ROSDetector.

Record t := mk {
  image_size_ : Z; image_rows_ : Z; image_cols_ : Z;
  padding_rows_ : Z; padding_cols_ : Z;
  min_bbox_width_ : Q; min_bbox_height_ : Q;
  max_bbox_width_ : Q; max_bbox_height_ : Q
}.

(** [ROSDetector::padImage]: only the unscaled case is implemented; with
    [r != 1] an error is logged and the paddings stay as they are. *)
Definition padImage (rows cols : Z) (d : t) : t :=
  let r := Float.of_int (image_size_ d) / Float.of_int (Z.max rows cols) in
  if negb (Qeq_bool r 1) then d
  else mk (image_size_ d) (image_rows_ d) (image_cols_ d)
          (Z.quot (image_size_ d - rows) 2)
          (Z.quot (image_size_ d - cols) 2)
          (min_bbox_width_ d) (min_bbox_height_ d)
          (max_bbox_width_ d) (max_bbox_height_ d).

(** The assignments of [ROSDetector::adjustBoundingBoxes] for a valid
    box: the center is shifted, the corners are clamped to the image. *)
Definition adjust_valid (d : t) (b : BoundingBox) : BoundingBox :=
  let b := BB.set_x (x_ b - Float.of_int (padding_cols_ d)) b in
  let b := BB.set_y (y_ b - Float.of_int (padding_rows_ d)) b in
  let b := BB.set_x_min (Float.max (x_ b - w_ b / 2) 0) b in
  let b := BB.set_x_max (Float.min (x_ b + w_ b / 2)
                                   (Float.of_int (image_cols_ d))) b in
  let b := BB.set_y_min (Float.max (y_ b - h_ b / 2) 0) b in
  let b := BB.set_y_max (Float.min (y_ b + h_ b / 2)
                                   (Float.of_int (image_rows_ d))) b in
  b.

Definition adjust_step (d : t) (i j : nat) (bboxes : list (list BoundingBox))
  : option (list (list BoundingBox)) :=
  match Vec.at2 bboxes i j with
  | Some b =>
      if negb (valid_ b) then Some bboxes
      else Vec.write2 bboxes i j (adjust_valid d b)
  | None => None
  end.

(** [ROSDetector::adjustBoundingBoxes]. *)
Definition adjustBoundingBoxes (d : t) (bboxes : list (list BoundingBox))
  : option (list (list BoundingBox)) :=
  Loop.for_ 0 (length bboxes)
    (fun i bbs =>
       match bbs !! i with
       | Some row => Loop.for_ 0 (length row) (adjust_step d i) bbs
       | None => None
       end)
    bboxes.

Definition adjust_box (d : t) (b : BoundingBox) : BoundingBox :=
  if valid_ b then adjust_valid d b else b.

(** The assignments to [state] in [ROSDetector::cast2states]: the height
    goes to index 4 and the width to index 5. *)
Definition fill_state (b : BoundingBox) (state : list Q) : option (list Q) :=
  state ← Vec.write state 0 (x_ b);
  state ← Vec.write state 1 (y_ b);
  state ← Vec.write state 2 0;
  state ← Vec.write state 3 0;
  state ← Vec.write state 4 (h_ b);
  Vec.write state 5 (w_ b).

End ROSDetector.

(** ** Where a box lies *)



(** Once shifted by the paddings of the node, the rectangle of [b] meets the
    image rectangle [0, image_cols] x [0, image_rows]. *)
Definition meets_image (d : ROSDetector.t) (b : BoundingBox) : Prop :=
  0 <= inject_Z (ROSDetector.image_cols_ d) /\
  0 <= inject_Z (ROSDetector.image_rows_ d) /\
  x_ b - inject_Z (ROSDetector.padding_cols_ d) - w_ b / 2
    <= inject_Z (ROSDetector.image_cols_ d) /\
  0 <= x_ b - inject_Z (ROSDetector.padding_cols_ d) + w_ b / 2 /\
  y_ b - inject_Z (ROSDetector.padding_rows_ d) - h_ b / 2
    <= inject_Z (ROSDetector.image_rows_ d) /\
  0 <= y_ b - inject_Z (ROSDetector.padding_rows_ d) + h_ b / 2.

(** Every point of [points] has its three coordinates and a box of
    [bboxes] at the same place: [points] localizes boxes of [bboxes]. *)
Definition localized (points : list (list (list Q)))
           (bboxes : list (list BoundingBox)) : Prop :=
  forall i j p, Vec.at2 points i j = Some p ->
    (3 <= length p)%nat /\ is_Some (Vec.at2 bboxes i j).

(** ** What cast2states is expected to emit *)

(** A box passes the tests of [cast2states]: it is valid and no size test
    rejects it. *)
Definition accepted {Tr} (T : Track.t Tr) (b : BoundingBox) : bool :=
  valid_ b && negb (Track.rejects T (w_ b) (h_ b)).

(** The 2D state of a detection: (x, y, 0, 0, w, h). *)
Definition state_of (b : BoundingBox) : list Q :=
  [x_ b; y_ b; 0; 0; w_ b; h_ b].

(** The states of the accepted boxes of one class, in order. *)
Definition class_states {Tr} (T : Track.t Tr) (row : list BoundingBox)
  : list (list Q) :=
  state_of <$> List.filter (accepted T) row.

(** ** Sample data *)

(** [cv::resize] rounds the scaled side to the nearest integer. *)
Definition round_side (r : Q) (n : Z) : Z := Qfloor (r * inject_Z n + (1 # 2)).

(** A 640 x 480 camera (480 rows, 640 columns): the padded square is
    640 x 640 with 80 rows of padding above and below the image. *)
Definition sample_detect : Detect.t :=
  Detect.padImage round_side 480 640
    (Detect.buildDetect 480 640 2 (Detect.mk 0 0 0 0 0 0 0)).

Definition sample_node : ROSDetector.t :=
  ROSDetector.padImage 480 640 (ROSDetector.mk 640 480 640 0 0 60 60 400 300).

(** A box in the middle of the image and a box in the upper padding band,
    both in the coordinates of the padded square. *)
Definition sample_box : BoundingBox :=
  mkBoundingBox 320 100 40 60 300 340 70 130 (9 # 10) 0 true.

Definition padding_box : BoundingBox :=
  mkBoundingBox 320 10 20 20 310 330 0 20 (9 # 10) 0 true.



Definition sample_pose : Locate.PoseEstimator :=
  {| Locate.getFx := 500; Locate.getFy := 500 |}.

(** The sample box seen two meters away, 0.4 m right of the optical axis. *)
Definition sample_points : list (list (list Q)) := [[[4 # 10; 0; 2]]].

(** A tracker that only records the calls of [update] it receives; it
    reports the detections of the last call, numbered from 0. *)
#[export] Instance recording_tracker : Tracker (list (list (list Q))) := {
  new_Tracker _ _ _ _ _ _ _ _ _ _ := [];
  update _ states calls := calls ++ [states];
  getStates calls _ :=
    match last calls with
    | Some states => list_to_map (zip (seq 0 (length states)) states)
    | None => ∅
    end
}.

(** The parameters the ROS nodes use by default, for two classes. *)
Definition sample_det_p : DetectionParameters :=
  {| num_classes := 2; class_map := ["drone"%string; "person"%string] |}.
Definition sample_kal_p : KalmanParameters :=
  {| Q_diag := [9; 9; 200; 200; 5; 5]; R_diag := [2; 2; 200; 200; 2; 2];
     use_dim := true; use_vel := false |}.
Definition sample_tra_p : TrackingParameters :=
  {| distance_thresh := 150; center_thresh := 80; area_thresh := 3;
     body_ratio := 1 # 2; dt := 1 # 50; max_frames_to_skip := 15 |}.
Definition sample_bbo_p : BBoxRejectionParameters :=
  {| min_bbox_width := 60; max_bbox_width := 400;
     min_bbox_height := 60; max_bbox_height := 300 |}.

Definition sample_track : Track.t (list (list (list Q))) :=
  Track.new sample_det_p sample_kal_p sample_tra_p sample_bbo_p.

(** A valid box 100 wide and 350 high: higher than [max_bbox_height] = 300,
    not higher than [max_bbox_width] = 400. *)
Definition tall_box : BoundingBox :=
  mkBoundingBox 320 240 100 350 270 370 65 415 (9 # 10) 0 true.

(** One accepted detection for each of the two classes. *)
Definition class0_box : BoundingBox :=
  mkBoundingBox 100 100 100 100 50 150 50 150 (9 # 10) 0 true.
Definition class1_box : BoundingBox :=
  mkBoundingBox 300 200 80 120 260 340 140 260 (8 # 10) 1 true.
Definition two_classes : list (list BoundingBox) :=
  [[class0_box]; [class1_box]].

(** A 3D tracker with size bounds in meters and a box it accepts. *)
Definition sample_bbo3_p : BBoxRejectionParameters :=
  {| min_bbox_width := 1 # 5; max_bbox_width := 3;
     min_bbox_height := 1 # 5; max_bbox_height := 3 |}.
Definition sample_track3D : Track.t (list (list (list Q))) :=
  Track.new sample_det_p sample_kal_p sample_tra_p sample_bbo3_p.
Definition sample_box3D : BoundingBox3D.t :=
  BoundingBox3D.mk (4 # 10) 0 2 (4 # 10) (4 # 10) (6 # 10) (9 # 10) 0 true.

(** Detections the detector has marked as not valid. *)
Definition invalid_box : BoundingBox :=
  mkBoundingBox 320 100 100 100 270 370 50 150 (1 # 10) 0 false.
Definition invalid_box3D : BoundingBox3D.t :=
  BoundingBox3D.mk (4 # 10) 0 2 (4 # 10) (4 # 10) (6 # 10) (1 # 10) 0 false.


(** * Further functions of the same files *)

(** ** Range-based loops and std::map *)

Module Each.

(** [for (auto & element : container) body] over the elements in the order
  of [l]; a round that faults ends the run. *)
Fixpoint for_each {A St} (l : list A) (body : A -> St -> option St) (s : St)
: option St :=
match l with
| [] => Some s
| x :: l' =>
    match body x s with
    | Some s' => for_each l' body s'
    | None => None
    end
end.

(** A [std::map] is iterated by increasing key: so are the maps with
  [unsigned int] keys of the library *)
Definition key_le (a b : nat * list Q) : Prop := (a.1 <= b.1)%nat.

#[export] Instance key_le_dec (a b : nat * list Q) : Decision (key_le a b) :=
decide (a.1 <= b.1)%nat.

Definition in_key_order (m : TrackerStates) : list (nat * list Q) :=
merge_sort key_le (map_to_list m).

(** and the maps with [int] keys of the in-image tracking node. *)
Definition int_key_le (a b : Z * list Q) : Prop := (a.1 <= b.1)%Z.

#[export] Instance int_key_le_dec (a b : Z * list Q)
: Decision (int_key_le a b) :=
decide (a.1 <= b.1)%Z.

Definition in_int_key_order (m : gmap Z (list Q)) : list (Z * list Q) :=
merge_sort int_key_le (map_to_list m).

End Each.

(** ** Drawing the tracks *)

(** [cv::Rect] and [cv::Point] hold [int]s: a [float] argument is converted
    by dropping its fractional part (truncation toward zero); [int] is [Z]
    here as in the rest of the file. *)
Definition float_to_int (x : Q) : Z := (Qnum x ÷ Zpos (Qden x))%Z.

(** [v[k]] for an index [k] of type [int]: nothing lies at a negative
    index. *)
Definition at_int {A} (v : list A) (k : Z) : option A :=
  if (k <? 0)%Z then None else v !! Z.to_nat k.

(** What the tracking overlays ask of OpenCV: [cv::rectangle] with the
    [int] corner and size of a [cv::Rect], and [cv::putText] with a label
    and the [int] coordinates of a [cv::Point], each with a colour. *)
Inductive TrackDrawOp (Scalar : Type) :=
| TrackRectangle (x y width height : Z) (color : Scalar)
| TrackLabel (text : string) (x y : Z) (color : Scalar).
Arguments TrackRectangle {Scalar} x y width height color.
Arguments TrackLabel {Scalar} text x y color.

Module TrackDraw.
Section Palette.
Context {Scalar : Type}.

(** [ColorPalette] is declared in a header that is not among the sources;
  the loops index it with [operator[]], so it is a vector (or an array)
  of colours here, of whatever length. *)
Variable ColorPalette : list Scalar.

(** The body of the range-based loop of [Track2D::generateTrackingImage]
  and [Track3D::generateTrackingImage] (the same text).  The state
  [element.second] is read at indices 0, 4, 1 and 5, [ColorPalette] at
  [element.first % 24] and the member [class_map_] at [i]; the label is
  [class_map_[i] + " " + std::to_string(element.first)]. *)
Definition step (class_map_ : list string) (i : nat)
              (element : nat * list Q) (image : list (TrackDrawOp Scalar))
: option (list (TrackDrawOp Scalar)) :=
s0 ← element.2 !! 0%nat;
s4 ← element.2 !! 4%nat;
s1 ← element.2 !! 1%nat;
s5 ← element.2 !! 5%nat;
let rect := TrackRectangle (float_to_int (s0 - s4 / 2))
                           (float_to_int (s1 - s5 / 2))
                           (float_to_int s4) (float_to_int s5) in
color ← ColorPalette !! (element.1 mod 24)%nat;
let image := image ++ [rect color] in
name ← class_map_ !! i;
let text := (name +:+ " " +:+ pretty element.1)%string in
Some (image ++ [TrackLabel text (float_to_int (s0 - s4 / 2))
                         (float_to_int (s1 - s5 / 2 - 10)) color]).

(** [generateTrackingImage] of a [Track2D] or [Track3D] object. *)
Definition generateTrackingImage {Tr} (T : Track.t Tr)
         (tracker_states : list TrackerStates)
         (image : list (TrackDrawOp Scalar))
: option (list (TrackDrawOp Scalar)) :=
Loop.for_ 0 (length tracker_states)
  (fun i img =>
     m ← tracker_states !! i;
     Each.for_each (Each.in_key_order m) (step (Track.class_map_ T) i) img)
  image.

(** [ClassMap], the class names of the nodes, is declared in a header that
  is not among the sources either. *)
Variable ClassMap : list string.

(** The same loop in [ROSDetector::imageCallback] of the in-image tracking
  node, over a [std::map<int, std::vector<float>>] per class.  The
  rectangle reads the state at indices 0, 5, 1 and 4 (width at 5, height
  at 4), the label at indices 0, 7, 1 and 6; [element.first % 24] is the
  remainder of the [int] division, negative for a negative key. *)
Definition node_step (i : nat) (element : Z * list Q)
                   (image : list (TrackDrawOp Scalar))
: option (list (TrackDrawOp Scalar)) :=
s0 ← element.2 !! 0%nat;
s5 ← element.2 !! 5%nat;
s1 ← element.2 !! 1%nat;
s4 ← element.2 !! 4%nat;
let rect := TrackRectangle (float_to_int (s0 - s5 / 2))
                           (float_to_int (s1 - s4 / 2))
                           (float_to_int s5) (float_to_int s4) in
color ← at_int ColorPalette (Z.rem element.1 24);
let image := image ++ [rect color] in
name ← ClassMap !! i;
let text := (name +:+ " " +:+ pretty element.1)%string in
s7 ← element.2 !! 7%nat;
s6 ← element.2 !! 6%nat;
Some (image ++ [TrackLabel text (float_to_int (s0 - s7 / 2))
                         (float_to_int (s1 - s6 / 2 - 10)) color]).

Definition node_loop (tracker_states : list (gmap Z (list Q)))
                   (image : list (TrackDrawOp Scalar))
: option (list (TrackDrawOp Scalar)) :=
Loop.for_ 0 (length tracker_states)
  (fun i img =>
     m ← tracker_states !! i;
     Each.for_each (Each.in_int_key_order m) (node_step i) img)
  image.

End Palette.
End TrackDraw.

(** ** Track3D::track *)

(** A 3D box passes the tests of [Track3D::cast2states]. *)
Definition accepted3D {Tr} (T : Track.t Tr) (b : BoundingBox3D.t) : bool :=
  BoundingBox3D.valid_ b &&
  negb (Track.rejects T (BoundingBox3D.w_ b) (BoundingBox3D.h_ b)).

(** [Track3D::track(bboxes, tracker_states, dt)]. *)
Definition Track3D_track_dt {Tr} `{Tracker Tr} (T : Track.t Tr) (i0 : nat)
           (j0 : nat -> nat) (bboxes : list (list BoundingBox3D.t))
           (tracker_states : list TrackerStates) (time_step : Q)
  : option (list Tr * list TrackerStates) :=
  states ← Track3D.cast2states T i0 j0 bboxes;
  Track.track_loop time_step states (Track.Trackers_ T) tracker_states.

(** [Track3D::track(bboxes, tracker_states)]: the same with [dt_]. *)
Definition Track3D_track {Tr} `{Tracker Tr} (T : Track.t Tr) (i0 : nat)
           (j0 : nat -> nat) (bboxes : list (list BoundingBox3D.t))
           (tracker_states : list TrackerStates)
  : option (list Tr * list TrackerStates) :=
  Track3D_track_dt T i0 j0 bboxes tracker_states (Track.dt_ T).

(** ** cast2states of the in-image tracking node *)

Module InImageNode.

(** The four size tests of [ROSDetector::cast2states], in the order of the
  code. *)
Definition rejects (d : ROSDetector.t) (w h : Q) : bool :=
if Float.gtb h (ROSDetector.max_bbox_height_ d) then true
else if Float.gtb w (ROSDetector.max_bbox_width_ d) then true
else if Float.ltb h (ROSDetector.min_bbox_height_ d) then true
else if Float.ltb w (ROSDetector.min_bbox_width_ d) then true
else false.

Definition cast_step (d : ROSDetector.t) (bboxes : list (list BoundingBox))
                   (i j : nat) (s : list Q * list (list Q))
: option (list Q * list (list Q)) :=
b ← Vec.at2 bboxes i j;
if negb (valid_ b) then Some s
else if rejects d (w_ b) (h_ b) then Some s
else
  state ← ROSDetector.fill_state b s.1;
  Some (state, s.2 ++ [state]).

(** [ROSDetector::cast2states]; the argument [points] is not used by the
  code.  [i0] and [j0] as in [Track2D.cast2states]: the counters have no
  initialiser here either. *)
Definition cast2states (d : ROSDetector.t) (i0 : nat) (j0 : nat -> nat)
                     (bboxes : list (list BoundingBox))
: option (list (list (list Q))) :=
r ← Loop.for_ i0 (length bboxes)
      (fun i (s : list Q * list (list (list Q))) =>
         row ← bboxes !! i;
         inner ← Loop.for_ (j0 i) (length row) (cast_step d bboxes i)
                           (s.1, []);
         Some (inner.1, s.2 ++ [inner.2]))
      (replicate 6 0, []);
Some r.2.

(** A box passes the tests of the node. *)
Definition accepted (d : ROSDetector.t) (b : BoundingBox) : bool :=
valid_ b && negb (rejects d (w_ b) (h_ b)).

(** The state the node makes of a detection: (x, y, 0, 0, h, w). *)
Definition state_of (b : BoundingBox) : list Q :=
[x_ b; y_ b; 0; 0; h_ b; w_ b].

Definition class_states (d : ROSDetector.t) (row : list BoundingBox)
: list (list Q) :=
state_of <$> List.filter (accepted d) row.

End InImageNode.

(** ** The messages of the global tracking node *)

(** Modelled from the spec: the message types ([BoundingBox2D.msg],
    [PositionBoundingBox2D.msg], [PositionID.msg]) are not among the
    sources; the fields are the ones the code assigns, for the box, the
    class and the position of the output interface. *)
Module Msg.
Record Point := mkPoint { px : Q; py : Q; pz : Q }.
Record BoundingBox2D := mkBoundingBox2D {
min_x : Q; min_y : Q; height : Q; width : Q;
class_id : nat; detection_id : nat
}.
Record PositionBoundingBox2D := mkPositionBoundingBox2D {
bbox : BoundingBox2D; position : Point
}.
Record PositionID := mkPositionID {
id_position : Point; id_detection_id : nat
}.
End Msg.

Module GlobalNode.

(** [points[i][j][0]], [[1]], [[2]] as a point. *)
Definition point_at (points : list (list (list Q))) (i j : nat)
: option Msg.Point :=
p ← Vec.at2 points i j;
p0 ← p !! 0%nat;
p1 ← p !! 1%nat;
p2 ← p !! 2%nat;
Some (Msg.mkPoint p0 p1 p2).

(** One round of the inner loop compiled with
  [PUBLISH_DETECTION_WITH_POSITION]: the loop state is the message
  [ros_bbox], declared before the loops, and [vec_ros_bboxes]. *)
Definition publish_step (bboxes : list (list BoundingBox))
         (points : list (list (list Q))) (i j : nat)
         (s : Msg.PositionBoundingBox2D * list Msg.PositionBoundingBox2D)
: option (Msg.PositionBoundingBox2D * list Msg.PositionBoundingBox2D) :=
b ← Vec.at2 bboxes i j;
if negb (valid_ b) then Some s
else
  let box := Msg.mkBoundingBox2D (x_min_ b) (y_min_ b) (h_ b) (w_ b) i
               (Msg.detection_id (Msg.bbox s.1)) in
  pos ← point_at points i j;
  let ros_bbox := Msg.mkPositionBoundingBox2D box pos in
  Some (ros_bbox, s.2 ++ [ros_bbox]).

(** The loops of [ROSDetector::imageCallback] that fill
  [ros_bboxes.bboxes]; [ros_bbox0] is the message as constructed. *)
Definition publish_positions_bboxes (ros_bbox0 : Msg.PositionBoundingBox2D)
         (bboxes : list (list BoundingBox)) (points : list (list (list Q)))
: option (list Msg.PositionBoundingBox2D) :=
r ← Loop.for_ 0 (length bboxes)
      (fun i s =>
         row ← bboxes !! i;
         Loop.for_ 0 (length row) (publish_step bboxes points i) s)
      (ros_bbox0, []);
Some r.2.

(** The loop state of the loops compiled without
  [PUBLISH_DETECTION_WITH_POSITION]. *)
Record ids_state := mkIds {
counter : nat;
ros_bbox : Msg.BoundingBox2D;
id_position : Msg.PositionID;
vec_ros_bboxes : list Msg.BoundingBox2D;
vec_id_positions : list Msg.PositionID
}.

Definition ids_step (bboxes : list (list BoundingBox))
         (points : list (list (list Q))) (i j : nat) (s : ids_state)
: option ids_state :=
b ← Vec.at2 bboxes i j;
if negb (valid_ b) then Some s
else
  let box := Msg.mkBoundingBox2D (x_min_ b) (y_min_ b) (h_ b) (w_ b) i
                                 (counter s) in
  pos ← point_at points i j;
  let idp := Msg.mkPositionID pos (counter s) in
  Some (mkIds (S (counter s)) box idp
              (vec_ros_bboxes s ++ [box]) (vec_id_positions s ++ [idp])).

(** The loops that fill [ros_bboxes.bboxes] and [id_positions.positions];
  [counter] starts at 0. *)
Definition publish_ids (ros_bbox0 : Msg.BoundingBox2D)
         (id_position0 : Msg.PositionID)
         (bboxes : list (list BoundingBox)) (points : list (list (list Q)))
: option ids_state :=
Loop.for_ 0 (length bboxes)
  (fun i s =>
     row ← bboxes !! i;
     Loop.for_ 0 (length row) (ids_step bboxes points i) s)
  (mkIds 0 ros_bbox0 id_position0 [] []).

End GlobalNode.

(** A valid 3D box 0.1 m wide, below the smallest accepted width. *)
Definition undersized_box3D : BoundingBox3D.t :=
  BoundingBox3D.mk (4 # 10) 0 2 (1 # 10) (1 # 10) (6 # 10) (9 # 10) 1 true.

(** ** What the tracking overlays draw *)

(** The tracks in the order the loops visit them, each with the index of
    its class: class after class, and within a class in the order of its
    map. *)
Definition tracks_in_order {K} (per_class : list (list (K * list Q)))
  : list (nat * (K * list Q)) :=
  concat (imap (fun i l => (fun e => (i, e)) <$> l) per_class).

(** The rectangle and the label of the library for one track of class
    [t.1] with id [t.2.1] and a state that starts with x, y, two
    velocities, w and h; none when the state is shorter, the class has no
    name or the palette no colour at the id modulo 24. *)
Definition track_overlay {Scalar} (ColorPalette : list Scalar)
           (class_map : list string) (t : nat * (nat * list Q))
  : option (list (TrackDrawOp Scalar)) :=
  match t.2.2 with
  | x :: y :: _ :: _ :: w :: h :: _ =>
      name ← class_map !! t.1;
      color ← ColorPalette !! (t.2.1 mod 24)%nat;
      Some [TrackRectangle (float_to_int (x - w / 2))
                           (float_to_int (y - h / 2))
                           (float_to_int w) (float_to_int h) color;
            TrackLabel (name +:+ " " +:+ pretty t.2.1)%string
                       (float_to_int (x - w / 2))
                       (float_to_int (y - h / 2 - 10)) color]
  | _ => None
  end.

(** The same for the in-image tracking node: the rectangle takes the
    height from index 4 and the width from index 5, the label is placed
    with the entries at indices 6 and 7. *)
Definition node_track_overlay {Scalar} (ColorPalette : list Scalar)
           (ClassMap : list string) (t : nat * (Z * list Q))
  : option (list (TrackDrawOp Scalar)) :=
  match t.2.2 with
  | x :: y :: _ :: _ :: h :: w :: s6 :: s7 :: _ =>
      name ← ClassMap !! t.1;
      color ← at_int ColorPalette (Z.rem t.2.1 24);
      Some [TrackRectangle (float_to_int (x - w / 2))
                           (float_to_int (y - h / 2))
                           (float_to_int w) (float_to_int h) color;
            TrackLabel (name +:+ " " +:+ pretty t.2.1)%string
                       (float_to_int (x - s7 / 2))
                       (float_to_int (y - s6 / 2 - 10)) color]
  | _ => None
  end.

(** A palette of 24 colours, each named by its index. *)
Definition sample_palette : list nat := seq 0 24.

(** Track 27 of class 0 with a six-entry state, as [cast2states] makes
    them: a box 41 wide and 100 high centered at (10, 100), whose left
    side is at -10.5.  The same with eight entries, and the tracker
    states of the library and of the node that hold them. *)
Definition sample_state : list Q := [10; 100; 0; 0; 41; 100].
Definition sample_long_state : list Q := [10; 100; 0; 0; 100; 41; 100; 41].
Definition sample_tracker_states : list TrackerStates :=
  [{[ 27%nat := sample_state ]}; ∅].
Definition sample_node_tracker_states : list (gmap Z (list Q)) :=
  [{[ 27%Z := sample_state ]}; ∅].
Definition sample_node_long_states : list (gmap Z (list Q)) :=
  [{[ 27%Z := sample_long_state ]}; ∅].

(** ** What the loops of the global tracking node produce *)


(** The message for [bboxes[i][j]]: none for a box that is not valid. *)
Definition message_at (det_id : nat) (bboxes : list (list BoundingBox))
           (points : list (list (list Q))) (ij : nat * nat)
  : option Msg.PositionBoundingBox2D :=
  b ← Vec.at2 bboxes ij.1 ij.2;
  if valid_ b then
    pos ← GlobalNode.point_at points ij.1 ij.2;
    Some (Msg.mkPositionBoundingBox2D
            (Msg.mkBoundingBox2D (x_min_ b) (y_min_ b) (h_ b) (w_ b) ij.1 det_id)
            pos)
  else None.

(** Every valid box has a point with three coordinates at its place. *)
Definition valid_localized (bboxes : list (list BoundingBox))
           (points : list (list (list Q))) : Prop :=
  forall i j b, Vec.at2 bboxes i j = Some b -> valid_ b = true ->
    is_Some (GlobalNode.point_at points i j).

Definition sample_ros_bbox : Msg.PositionBoundingBox2D :=
  Msg.mkPositionBoundingBox2D (Msg.mkBoundingBox2D 0 0 0 0 0 0)
                              (Msg.mkPoint 0 0 0).
Definition sample_id_position : Msg.PositionID :=
  Msg.mkPositionID (Msg.mkPoint 0 0 0) 0.
(** * Properties *)

(** ** Loops that update a vector in place *)

Section LoopFacts.
Context {A : Type}.

Lemma take_drop_step (upd : A -> A) (l : list A) (k : nat) (x : A) :
  l !! k = Some x ->
  take (S k) (<[k := upd x]> l) ++ (upd <$> drop (S k) (<[k := upd x]> l))
  = take k l ++ (upd <$> drop k l).
Proof.
  intros Hk.
  assert (k < length l)%nat by (eapply lookup_lt_Some; eauto).
  rewrite (take_S_r _ _ (upd x)) by (apply list_lookup_insert_eq; lia).
  rewrite take_insert_ge by lia.
  rewrite drop_insert_lt by lia.
  rewrite (drop_S l x k Hk). rewrite fmap_cons.
  rewrite <- app_assoc. reflexivity.
Qed.

(** A loop whose round [k] replaces element [k] by its image under [upd]
    maps [upd] over the part of the vector it sweeps. *)
Lemma iter_update (upd : A -> A) (body : nat -> list A -> option (list A)) :
  (forall k l x, l !! k = Some x -> body k l = Some (<[k := upd x]> l)) ->
  forall n k l, (k + n = length l)%nat ->
    Loop.iter n k body l = Some (take k l ++ (upd <$> drop k l)).
Proof.
  intros Hbody. induction n as [|n IH]; intros k l Hlen; simpl.
  - rewrite drop_ge, take_ge by lia. simpl. rewrite app_nil_r. reflexivity.
  - destruct (lookup_lt_is_Some_2 l k) as [x Hx]; [lia|].
    rewrite (Hbody k l x Hx).
    rewrite IH by (rewrite length_insert; lia).
    rewrite (take_drop_step upd l k x Hx). reflexivity.
Qed.

(** The same for a loop that sweeps row [i] of a vector of vectors. *)
Lemma iter_update_row (upd : A -> A) (i : nat)
      (body : nat -> list (list A) -> option (list (list A))) :
  (forall k v row x, v !! i = Some row -> row !! k = Some x ->
     body k v = Some (<[i := <[k := upd x]> row]> v)) ->
  forall n k v row, v !! i = Some row -> (k + n = length row)%nat ->
    Loop.iter n k body v = Some (<[i := take k row ++ (upd <$> drop k row)]> v).
Proof.
  intros Hbody. induction n as [|n IH]; intros k v row Hi Hlen; simpl.
  - rewrite drop_ge, take_ge by lia. simpl. rewrite app_nil_r.
    rewrite list_insert_id by exact Hi. reflexivity.
  - destruct (lookup_lt_is_Some_2 row k) as [x Hx]; [lia|].
    rewrite (Hbody k v row x Hi Hx).
    assert (i < length v)%nat by (eapply lookup_lt_Some; eauto).
    rewrite (IH (S k) _ (<[k := upd x]> row))
      by (rewrite ?length_insert; try apply list_lookup_insert_eq; lia).
    rewrite list_insert_insert_eq.
    rewrite (take_drop_step upd row k x Hx). reflexivity.
Qed.

Lemma write_in_bounds (v : list A) (i : nat) (x : A) :
  (i < length v)%nat -> Vec.write v i x = Some (<[i := x]> v).
Proof. intros Hi. unfold Vec.write. rewrite decide_True by exact Hi. reflexivity. Qed.

Lemma write_out_of_bounds (v : list A) (i : nat) (x : A) :
  (length v <= i)%nat -> Vec.write v i x = None.
Proof. intros Hi. unfold Vec.write. rewrite decide_False by lia. reflexivity. Qed.

Lemma at2_lookup (v : list (list A)) (i j : nat) (row : list A) :
  v !! i = Some row -> Vec.at2 v i j = row !! j.
Proof. intros Hi. unfold Vec.at2. rewrite Hi. reflexivity. Qed.

Lemma write2_in_bounds (v : list (list A)) (i j : nat) (row : list A) (x y : A) :
  v !! i = Some row -> row !! j = Some y ->
  Vec.write2 v i j x = Some (<[i := <[j := x]> row]> v).
Proof.
  intros Hi Hj. unfold Vec.write2. rewrite Hi.
  rewrite write_in_bounds by (eapply lookup_lt_Some; eauto). reflexivity.
Qed.
End LoopFacts.

(** ** adjustBoundingBoxes, box by box *)

Ltac adjust_loops adjust_box_def :=
  intros;
  unfold Loop.for_; rewrite Nat.sub_0_r;
  erewrite (iter_update (fmap (M:=list) adjust_box_def));
    [ rewrite take_0, drop_0; reflexivity | | reflexivity ];
  intros k l row Hrow; cbn beta; rewrite Hrow;
  unfold Loop.for_; rewrite Nat.sub_0_r;
  erewrite (iter_update_row adjust_box_def k);
    [ rewrite take_0, drop_0; reflexivity | | exact Hrow | reflexivity ].

(** [Detect::adjustBoundingBoxes] never faults and rewrites every box by
    [Detect.adjust_box]. *)
Lemma Detect_adjustBoundingBoxes_map (d : Detect.t) (bboxes : list (list BoundingBox)) :
  Detect.adjustBoundingBoxes d bboxes
  = Some (fmap (M:=list) (Detect.adjust_box d) <$> bboxes).
Proof.
  unfold Detect.adjustBoundingBoxes.
  adjust_loops (Detect.adjust_box d).
  intros j v r b Hv Hb. unfold Detect.adjust_step, Detect.adjust_box.
  rewrite (at2_lookup v k j r Hv), Hb.
  destruct (valid_ b); simpl.
  - apply (write2_in_bounds v k j r _ b Hv Hb).
  - rewrite (list_insert_id r j b Hb), (list_insert_id v k r Hv). reflexivity.
Qed.

(** So does [ROSDetector::adjustBoundingBoxes]. *)
Lemma ROSDetector_adjustBoundingBoxes_map (d : ROSDetector.t)
      (bboxes : list (list BoundingBox)) :
  ROSDetector.adjustBoundingBoxes d bboxes
  = Some (fmap (M:=list) (ROSDetector.adjust_box d) <$> bboxes).
Proof.
  unfold ROSDetector.adjustBoundingBoxes.
  adjust_loops (ROSDetector.adjust_box d).
  intros j v r b Hv Hb. unfold ROSDetector.adjust_step, ROSDetector.adjust_box.
  rewrite (at2_lookup v k j r Hv), Hb.
  destruct (valid_ b); simpl.
  - apply (write2_in_bounds v k j r _ b Hv Hb).
  - rewrite (list_insert_id r j b Hb), (list_insert_id v k r Hv). reflexivity.
Qed.

Lemma at2_fmap {A B} (f : A -> B) (v : list (list A)) (i j : nat) :
  Vec.at2 (fmap (M:=list) f <$> v) i j = f <$> Vec.at2 v i j.
Proof.
  unfold Vec.at2. rewrite list_lookup_fmap.
  destruct (v !! i) as [row|]; simpl; [apply list_lookup_fmap | reflexivity].
Qed.

Lemma half_of_scaled (w r : Q) : w / (2 * r) == (w / r) / 2.
Proof. unfold Qdiv. rewrite Qinv_mult_distr. ring. Qed.

(** ** Comparisons on floats *)

Lemma gtb_true (a b : Q) : Float.gtb a b = true <-> b < a.
Proof.
  unfold Float.gtb. rewrite negb_true_iff, <- not_true_iff_false, Qle_bool_iff.
  split; [apply Qnot_le_lt | apply Qlt_not_le].
Qed.

Lemma gtb_false (a b : Q) : Float.gtb a b = false <-> a <= b.
Proof. unfold Float.gtb. rewrite negb_false_iff. apply Qle_bool_iff. Qed.

Lemma ltb_true (a b : Q) : Float.ltb a b = true <-> a < b.
Proof. unfold Float.ltb. apply gtb_true. Qed.

Lemma ltb_false (a b : Q) : Float.ltb a b = false <-> b <= a.
Proof. unfold Float.ltb. apply gtb_false. Qed.

(** Case analysis on every float comparison in sight. *)
Ltac float_cases :=
  repeat match goal with
  | |- context [Float.ltb ?a ?b] =>
      let E := fresh "E" in
      destruct (Float.ltb a b) eqn:E;
      [apply ltb_true in E | apply ltb_false in E]
  | |- context [Float.gtb ?a ?b] =>
      let E := fresh "E" in
      destruct (Float.gtb a b) eqn:E;
      [apply gtb_true in E | apply gtb_false in E]
  end.

Lemma max_spec (a b : Q) :
  (a < b /\ Float.max a b = b) \/ (b <= a /\ Float.max a b = a).
Proof. unfold Float.max. float_cases; auto. Qed.

Lemma min_spec (a b : Q) :
  (b < a /\ Float.min a b = b) \/ (a <= b /\ Float.min a b = a).
Proof. unfold Float.min. float_cases; auto. Qed.

Lemma div_pos (a r : Q) : 0 < a -> 0 < r -> 0 < a / r.
Proof. intros Ha Hr. apply Qlt_shift_div_l; [exact Hr | lra]. Qed.



(** ** The inverse of the letterbox *)

(** C4. For every valid incoming box, [Detect::adjustBoundingBoxes] runs to
    completion and leaves at the same place a box with
    x = (x - padding_cols)/r, y = (y - padding_rows)/r, w = w/r, h = h/r and
    corners equal to that center plus or minus half of that extent. *)
Theorem adjustBoundingBoxes_inverts_letterbox
        (d : Detect.t) (bboxes : list (list BoundingBox)) (i j : nat)
        (b : BoundingBox) :
  Vec.at2 bboxes i j = Some b ->
  valid_ b = true ->
  exists out b',
    Detect.adjustBoundingBoxes d bboxes = Some out /\
    Vec.at2 out i j = Some b' /\
    x_ b' = (x_ b - inject_Z (Detect.padding_cols_ d)) / Detect.r_ d /\
    y_ b' = (y_ b - inject_Z (Detect.padding_rows_ d)) / Detect.r_ d /\
    w_ b' = w_ b / Detect.r_ d /\
    h_ b' = h_ b / Detect.r_ d /\
    x_min_ b' == (x_ b - inject_Z (Detect.padding_cols_ d)) / Detect.r_ d
                 - (w_ b / Detect.r_ d) / 2 /\
    x_max_ b' == (x_ b - inject_Z (Detect.padding_cols_ d)) / Detect.r_ d
                 + (w_ b / Detect.r_ d) / 2 /\
    y_min_ b' == (y_ b - inject_Z (Detect.padding_rows_ d)) / Detect.r_ d
                 - (h_ b / Detect.r_ d) / 2 /\
    y_max_ b' == (y_ b - inject_Z (Detect.padding_rows_ d)) / Detect.r_ d
                 + (h_ b / Detect.r_ d) / 2.
Proof.
  intros Hb Hvalid.
  exists (fmap (M:=list) (Detect.adjust_box d) <$> bboxes), (Detect.adjust_box d b).
  split; [apply Detect_adjustBoundingBoxes_map|].
  split; [rewrite at2_fmap, Hb; reflexivity|].
  unfold Detect.adjust_box. rewrite Hvalid.
  unfold Detect.adjust_valid, Float.of_int; simpl.
  repeat split; try reflexivity;
    rewrite half_of_scaled; reflexivity.
Qed.

Lemma adjustBoundingBoxes_inverts_letterbox_witness :
  exists out b',
    Detect.adjustBoundingBoxes sample_detect [[sample_box]] = Some out /\
    Vec.at2 out 0 0 = Some b' /\
    x_ b' = (320 - inject_Z 0) / (640 / 640) /\
    y_ b' = (100 - inject_Z 80) / (640 / 640) /\
    w_ b' = 40 / (640 / 640) /\
    h_ b' = 60 / (640 / 640) /\
    x_min_ b' == (320 - inject_Z 0) / (640 / 640) - (40 / (640 / 640)) / 2 /\
    x_max_ b' == (320 - inject_Z 0) / (640 / 640) + (40 / (640 / 640)) / 2 /\
    y_min_ b' == (100 - inject_Z 80) / (640 / 640) - (60 / (640 / 640)) / 2 /\
    y_max_ b' == (100 - inject_Z 80) / (640 / 640) + (60 / (640 / 640)) / 2.
Proof.
  apply (adjustBoundingBoxes_inverts_letterbox sample_detect [[sample_box]]
           0 0 sample_box); reflexivity.
Defined.

(** ** Where the adjusted center lands *)

(** Closed comparisons of rationals, by evaluation. *)
Ltac q_closed := vm_compute; first [reflexivity | discriminate].

Lemma Detect_adjusted_at (d : Detect.t) (bboxes : list (list BoundingBox))
      (i j : nat) (b : BoundingBox) :
  Vec.at2 bboxes i j = Some b ->
  exists out,
    Detect.adjustBoundingBoxes d bboxes = Some out /\
    Vec.at2 out i j = Some (Detect.adjust_box d b).
Proof.
  intros Hb. eexists. split; [apply Detect_adjustBoundingBoxes_map|].
  rewrite at2_fmap, Hb. reflexivity.
Qed.

Lemma ROSDetector_adjusted_at (d : ROSDetector.t)
      (bboxes : list (list BoundingBox)) (i j : nat) (b : BoundingBox) :
  Vec.at2 bboxes i j = Some b ->
  exists out,
    ROSDetector.adjustBoundingBoxes d bboxes = Some out /\
    Vec.at2 out i j = Some (ROSDetector.adjust_box d b).
Proof.
  intros Hb. eexists. split; [apply ROSDetector_adjustBoundingBoxes_map|].
  rewrite at2_fmap, Hb. reflexivity.
Qed.




(** ** The box invariant after adjustment *)

(** C6, as stated, fails for the node: its camera image is 640 x 480 with 80
    rows of padding; the valid box with center (320, 10), w = h = 20 lies in
    the padding, its corners are clamped one by one, and it comes out with
    y_min = 0 and y_max = -60. *)
Lemma node_clamping_breaks_invariant :
  valid_ padding_box = true /\
  0 < w_ padding_box /\
  0 < h_ padding_box /\
  exists out b',
    ROSDetector.adjustBoundingBoxes sample_node [[padding_box]] = Some out /\
    Vec.at2 out 0 0 = Some b' /\
    y_min_ b' == 0 /\
    y_max_ b' == - (60) /\
    ~ bbox_invariant b'.
Proof.
  split; [reflexivity|]. do 2 (split; [q_closed|]).
  exists [[ROSDetector.adjust_box sample_node padding_box]],
         (ROSDetector.adjust_box sample_node padding_box).
  do 4 (split; [reflexivity|]).
  intros (_ & _ & _ & Hy). vm_compute in Hy. apply Hy. reflexivity.
Qed.

Lemma Detect_adjust_valid_invariant (d : Detect.t) (b : BoundingBox) :
  0 < Detect.r_ d -> 0 < w_ b -> 0 < h_ b ->
  bbox_invariant (Detect.adjust_valid d b).
Proof.
  intros Hr Hw Hh. unfold bbox_invariant, Detect.adjust_valid; simpl.
  assert (H2r : 0 < 2 * Detect.r_ d) by lra.
  pose proof (div_pos _ _ Hw H2r) as Hw2.
  pose proof (div_pos _ _ Hh H2r) as Hh2.
  repeat split.
  - apply div_pos; assumption.
  - apply div_pos; assumption.
  - lra.
  - lra.
Qed.

Lemma ROSDetector_adjust_valid_invariant (d : ROSDetector.t) (b : BoundingBox) :
  0 < w_ b -> 0 < h_ b ->
  bbox_invariant (ROSDetector.adjust_valid d b) <-> meets_image d b.
Proof.
  intros Hw Hh.
  unfold bbox_invariant, meets_image, ROSDetector.adjust_valid, Float.of_int;
    simpl.
  set (x' := x_ b - inject_Z (ROSDetector.padding_cols_ d)).
  set (y' := y_ b - inject_Z (ROSDetector.padding_rows_ d)).
  set (C := inject_Z (ROSDetector.image_cols_ d)).
  set (R := inject_Z (ROSDetector.image_rows_ d)).
  assert (Hw2 : 0 < w_ b / 2) by (apply div_pos; lra).
  assert (Hh2 : 0 < h_ b / 2) by (apply div_pos; lra).
  set (w2 := w_ b / 2) in *. set (h2 := h_ b / 2) in *.
  destruct (max_spec (x' - w2) 0) as [[? ->]|[? ->]];
  destruct (min_spec (x' + w2) C) as [[? ->]|[? ->]];
  destruct (max_spec (y' - h2) 0) as [[? ->]|[? ->]];
  destruct (min_spec (y' + h2) R) as [[? ->]|[? ->]];
  split; intros H'; decompose [and] H'; repeat split; lra.
Qed.

(** C6, amended. After [adjustBoundingBoxes], a box with valid = true,
    w > 0 and h > 0 satisfies w > 0, h > 0, x_min <= x_max and
    y_min <= y_max: always in the library version (r > 0), and in the node
    version exactly when the shifted box meets the image rectangle. *)
Theorem adjustBoundingBoxes_invariant :
  (forall (d : Detect.t) (bboxes : list (list BoundingBox)) (i j : nat)
          (b : BoundingBox),
      Vec.at2 bboxes i j = Some b ->
      valid_ b = true -> 0 < w_ b -> 0 < h_ b -> 0 < Detect.r_ d ->
      exists out b',
        Detect.adjustBoundingBoxes d bboxes = Some out /\
        Vec.at2 out i j = Some b' /\
        bbox_invariant b')
  /\
  (forall (d : ROSDetector.t) (bboxes : list (list BoundingBox)) (i j : nat)
          (b : BoundingBox),
      Vec.at2 bboxes i j = Some b ->
      valid_ b = true -> 0 < w_ b -> 0 < h_ b ->
      exists out b',
        ROSDetector.adjustBoundingBoxes d bboxes = Some out /\
        Vec.at2 out i j = Some b' /\
        (bbox_invariant b' <-> meets_image d b)).
Proof.
  split.
  - intros d bboxes i j b Hb Hvalid Hw Hh Hr.
    destruct (Detect_adjusted_at d bboxes i j b Hb) as (out & Hout & Hat).
    exists out, (Detect.adjust_box d b). do 2 (split; [assumption|]).
    unfold Detect.adjust_box. rewrite Hvalid.
    apply Detect_adjust_valid_invariant; assumption.
  - intros d bboxes i j b Hb Hvalid Hw Hh.
    destruct (ROSDetector_adjusted_at d bboxes i j b Hb) as (out & Hout & Hat).
    exists out, (ROSDetector.adjust_box d b). do 2 (split; [assumption|]).
    unfold ROSDetector.adjust_box. rewrite Hvalid.
    apply ROSDetector_adjust_valid_invariant; assumption.
Qed.

Lemma adjustBoundingBoxes_invariant_witness :
  (exists out b',
      Detect.adjustBoundingBoxes sample_detect [[sample_box]] = Some out /\
      Vec.at2 out 0 0 = Some b' /\
      bbox_invariant b')
  /\
  (exists out b',
      ROSDetector.adjustBoundingBoxes sample_node [[sample_box]] = Some out /\
      Vec.at2 out 0 0 = Some b' /\
      (bbox_invariant b' <-> meets_image sample_node sample_box)).
Proof.
  split.
  - apply (proj1 adjustBoundingBoxes_invariant sample_detect
             [[sample_box]] 0%nat 0%nat sample_box);
      first [reflexivity | q_closed].
  - apply (proj2 adjustBoundingBoxes_invariant sample_node
             [[sample_box]] 0%nat 0%nat sample_box);
      first [reflexivity | q_closed].
Defined.

(** ** Loops that collect with push_back *)

Lemma iter_collect {B} (g : nat -> option B)
      (body : nat -> list B -> option (list B)) :
  (forall k acc, body k acc = x ← g k; Some (acc ++ [x])) ->
  forall n k acc,
    Loop.iter n k body acc = xs ← mapM g (seq k n); Some (acc ++ xs).
Proof.
  intros Hbody. induction n as [|n IH]; intros k acc; simpl.
  - rewrite app_nil_r. reflexivity.
  - rewrite Hbody. destruct (g k) as [x|]; simpl; [|reflexivity].
    rewrite IH. destruct (mapM g (seq (S k) n)) as [xs|]; simpl; [|reflexivity].
    rewrite <- app_assoc. reflexivity.
Qed.

Lemma mapM_seq_lookup {B} (g : nat -> option B) (n i : nat) (xs : list B) :
  mapM g (seq 0 n) = Some xs -> (i < n)%nat -> xs !! i = g i /\ is_Some (g i).
Proof.
  intros Hxs Hi. apply mapM_Some_1 in Hxs.
  destruct (Forall2_lookup_l _ _ _ i i Hxs) as (x & Hx & Hg);
    [apply lookup_seq_lt; exact Hi|].
  rewrite Hx, Hg. eauto.
Qed.

(** ** 3D boxes from localized 2D boxes *)

Section Make3DFacts.
Variable fresh_valid : bool.
Variable PE_ : Locate.PoseEstimator.

(** The box the inner loop appends at round [j] of class [i]. *)
Let box_at (points : list (list (list Q))) (bboxes : list (list BoundingBox))
    (i j : nat) : option BoundingBox3D.t :=
  p ← Vec.at2 points i j;
  b ← Vec.at2 bboxes i j;
  p2 ← p !! 2%nat;
  p0 ← p !! 0%nat;
  p1 ← p !! 1%nat;
  Some (BoundingBox3D.mk p0 p1 p2
          (p2 * w_ b / Locate.getFx PE_) (p2 * w_ b / Locate.getFx PE_)
          (p2 * h_ b / Locate.getFy PE_)
          (confidence_ b) (class_id_ b) fresh_valid).

Lemma make3D_step_box_at points bboxes i j tmp :
  Locate.make3D_step fresh_valid PE_ points bboxes i j tmp
  = x ← box_at points bboxes i j; Some (tmp ++ [x]).
Proof.
  unfold Locate.make3D_step, box_at, Locate.new_BoundingBox3D.
  destruct (Vec.at2 points i j) as [p|]; simpl; [|reflexivity].
  destruct (Vec.at2 bboxes i j) as [b|]; simpl; [|reflexivity].
  destruct (p !! 2%nat); simpl; [|reflexivity].
  destruct (p !! 0%nat); simpl; [|reflexivity].
  destruct (p !! 1%nat); simpl; reflexivity.
Qed.

Lemma box_at_localized points bboxes i j p :
  localized points bboxes -> Vec.at2 points i j = Some p ->
  is_Some (box_at points bboxes i j).
Proof.
  intros Hloc Hp. destruct (Hloc i j p Hp) as [Hlen [b Hb]].
  unfold box_at. rewrite Hp, Hb. simpl.
  destruct p as [|X [|Y [|Z rest]]]; simpl in Hlen; try lia.
  simpl. eauto.
Qed.

Lemma make3D_row points bboxes i row :
  localized points bboxes -> points !! i = Some row ->
  exists tmp,
    Loop.for_ 0 (length row)
      (Locate.make3D_step fresh_valid PE_ points bboxes i) [] = Some tmp /\
    forall j, (j < length row)%nat -> tmp !! j = box_at points bboxes i j.
Proof.
  intros Hloc Hrow. unfold Loop.for_. rewrite Nat.sub_0_r.
  rewrite (iter_collect (box_at points bboxes i))
    by (intros; apply make3D_step_box_at).
  destruct (mapM (box_at points bboxes i) (seq 0 (length row))) as [tmp|] eqn:E.
  - exists tmp. split; [reflexivity|].
    intros j Hj. apply (mapM_seq_lookup _ _ _ _ E Hj).
  - exfalso. apply mapM_None_1, Exists_exists in E as (j & Hj & Hnone).
    apply elem_of_seq in Hj.
    destruct (lookup_lt_is_Some_2 row j) as [p Hp]; [lia|].
    destruct (box_at_localized points bboxes i j p Hloc) as [x Hx].
    + unfold Vec.at2. rewrite Hrow. exact Hp.
    + congruence.
Qed.

(** C7. For localized boxes, [Locate::make3DBoundingBoxes] runs to
    completion and puts at the place of every point (X, Y, Z) a 3D box
    with center (X, Y, Z), width Z * w / fx, depth equal to that width,
    height Z * h / fy, and the confidence and class id of the 2D box at
    that place. *)
Theorem make3DBoundingBoxes_back_projects
        (points : list (list (list Q))) (bboxes : list (list BoundingBox)) :
  localized points bboxes ->
  exists bboxes3D,
    Locate.make3DBoundingBoxes fresh_valid PE_ points bboxes = Some bboxes3D /\
    length bboxes3D = length points /\
    forall i j X Y Z rest b,
      Vec.at2 points i j = Some (X :: Y :: Z :: rest) ->
      Vec.at2 bboxes i j = Some b ->
      exists b3,
        Vec.at2 bboxes3D i j = Some b3 /\
        BoundingBox3D.x_ b3 = X /\
        BoundingBox3D.y_ b3 = Y /\
        BoundingBox3D.z_ b3 = Z /\
        BoundingBox3D.w_ b3 = Z * w_ b / Locate.getFx PE_ /\
        BoundingBox3D.h_ b3 = Z * h_ b / Locate.getFy PE_ /\
        BoundingBox3D.d_ b3 = BoundingBox3D.w_ b3 /\
        BoundingBox3D.confidence_ b3 = confidence_ b /\
        BoundingBox3D.class_id_ b3 = class_id_ b.
Proof.
  intros Hloc. unfold Locate.make3DBoundingBoxes, Loop.for_.
  rewrite Nat.sub_0_r.
  set (G := fun i : nat =>
              row ← points !! i;
              Loop.for_ 0 (length row)
                (Locate.make3D_step fresh_valid PE_ points bboxes i) []).
  rewrite (iter_collect G).
  2:{ intros k acc. unfold G. destruct (points !! k); reflexivity. }
  destruct (mapM G (seq 0 (length points))) as [out|] eqn:E.
  - exists out. simpl. split; [reflexivity|].
    split; [apply length_mapM in E; rewrite length_seq in E; congruence|].
    intros i j X Y Z rest b Hp Hb. pose proof Hp as Hp0.
    unfold Vec.at2 in Hp. destruct (points !! i) as [row|] eqn:Hrow; [|discriminate].
    assert (Hi : (i < length points)%nat) by (eapply lookup_lt_Some; eauto).
    destruct (mapM_seq_lookup _ _ _ _ E Hi) as [Hout _].
    destruct (make3D_row points bboxes i row Hloc Hrow) as (tmp & Htmp & Hat).
    unfold G in Hout. rewrite Hrow in Hout. simpl in Hout. rewrite Htmp in Hout.
    assert (Hj : (j < length row)%nat) by (eapply lookup_lt_Some; eauto).
    specialize (Hat j Hj). unfold box_at in Hat.
    rewrite Hp0, Hb in Hat. simpl in Hat.
    eexists. split; [unfold Vec.at2; rewrite Hout; exact Hat|].
    simpl. repeat split; reflexivity.
  - exfalso. apply mapM_None_1, Exists_exists in E as (i & Hi & Hnone).
    apply elem_of_seq in Hi.
    destruct (lookup_lt_is_Some_2 points i) as [row Hrow]; [lia|].
    destruct (make3D_row points bboxes i row Hloc Hrow) as (tmp & Htmp & _).
    unfold G in Hnone. rewrite Hrow in Hnone. simpl in Hnone. congruence.
Qed.
End Make3DFacts.

Lemma make3DBoundingBoxes_back_projects_witness :
  localized sample_points [[sample_box]] /\
  exists bboxes3D,
    Locate.make3DBoundingBoxes true sample_pose sample_points [[sample_box]]
    = Some bboxes3D /\
    length bboxes3D = 1%nat.
Proof.
  assert (Hloc : localized sample_points [[sample_box]]).
  { intros [|i] [|j] p Hp; simpl in Hp; try discriminate.
    inversion Hp; subst p. split; [simpl; lia | eexists; reflexivity]. }
  split; [exact Hloc|].
  destruct (make3DBoundingBoxes_back_projects true sample_pose
              sample_points [[sample_box]] Hloc) as (out & Hout & Hlen & _).
  exists out. split; [exact Hout | exact Hlen].
Defined.

(** ** cast2states in two dimensions *)

Section Cast2D.
Context {Tr : Type} `{Tracker Tr}.
Variable T : Track.t Tr.

Lemma Track2D_fill_state (b : BoundingBox) (state : list Q) :
  length state = 6%nat -> Track2D.fill_state b state = Some (state_of b).
Proof.
  intros Hlen.
  destruct state as [|a0 [|a1 [|a2 [|a3 [|a4 [|a5 [|a6 rest]]]]]]];
    try discriminate Hlen.
  reflexivity.
Qed.

(** One round of the inner loop appends the state of the box if the box
    is accepted and changes nothing otherwise. *)
Lemma Track2D_cast_step (bboxes : list (list BoundingBox)) (i j : nat)
      (row : list BoundingBox) (b : BoundingBox)
      (state : list Q) (state_vec : list (list Q)) :
  bboxes !! i = Some row -> row !! j = Some b -> length state = 6%nat ->
  exists state',
    Track2D.cast_step T bboxes i j (state, state_vec)
    = Some (state', state_vec ++ class_states T [b]) /\
    length state' = 6%nat.
Proof.
  intros Hrow Hb Hlen. unfold Track2D.cast_step.
  rewrite (at2_lookup bboxes i j row Hrow), Hb. simpl.
  unfold class_states, accepted. simpl.
  destruct (valid_ b); simpl.
  - destruct (Track.rejects T (w_ b) (h_ b)); simpl.
    + exists state. rewrite app_nil_r. auto.
    + rewrite (Track2D_fill_state b state Hlen). simpl.
      exists (state_of b). auto.
  - exists state. rewrite app_nil_r. auto.
Qed.

Lemma class_states_cons (b : BoundingBox) (row : list BoundingBox) :
  class_states T (b :: row) = class_states T [b] ++ class_states T row.
Proof.
  unfold class_states. simpl. destruct (accepted T b); reflexivity.
Qed.

Lemma Track2D_inner_loop (bboxes : list (list BoundingBox)) (i : nat)
      (row : list BoundingBox) :
  bboxes !! i = Some row ->
  forall n k state state_vec,
    n = (length row - k)%nat -> length state = 6%nat ->
    exists state',
      Loop.iter n k (Track2D.cast_step T bboxes i) (state, state_vec)
      = Some (state', state_vec ++ class_states T (drop k row)) /\
      length state' = 6%nat.
Proof.
  intros Hrow. induction n as [|n IH]; intros k state state_vec Hn Hlen; simpl.
  - exists state. rewrite drop_ge by lia.
    unfold class_states; simpl. rewrite app_nil_r. auto.
  - destruct (lookup_lt_is_Some_2 row k) as [b Hb]; [lia|].
    destruct (Track2D_cast_step bboxes i k row b state state_vec Hrow Hb Hlen)
      as (state1 & Hstep & Hlen1).
    rewrite Hstep.
    destruct (IH (S k) state1 (state_vec ++ class_states T [b])) as
      (state2 & Hrest & Hlen2); [lia | exact Hlen1 |].
    exists state2. rewrite Hrest. split; [|exact Hlen2].
    rewrite (drop_S row b k Hb), (class_states_cons b (drop (S k) row)).
    rewrite app_assoc. reflexivity.
Qed.

Lemma Track2D_outer_loop (j0 : nat -> nat) (bboxes : list (list BoundingBox)) :
  forall n k state states,
    n = (length bboxes - k)%nat -> length state = 6%nat ->
    exists state',
      Loop.iter n k
        (fun i (s : list Q * list (list (list Q))) =>
           row ← bboxes !! i;
           inner ← Loop.for_ (j0 i) (length row)
                     (Track2D.cast_step T bboxes i) (s.1, []);
           Some (inner.1, s.2 ++ [inner.2]))
        (state, states)
      = Some (state',
              states ++ imap (fun m row => class_states T (drop (j0 (k + m)%nat) row))
                             (drop k bboxes)) /\
      length state' = 6%nat.
Proof.
  induction n as [|n IH]; intros k state states Hn Hlen; simpl.
  - exists state. rewrite drop_ge by lia. simpl. rewrite app_nil_r. auto.
  - destruct (lookup_lt_is_Some_2 bboxes k) as [row Hrow]; [lia|].
    rewrite Hrow. simpl.
    destruct (Track2D_inner_loop bboxes k row Hrow
                (length row - j0 k)%nat (j0 k) state [] eq_refl Hlen)
      as (state1 & Hinner & Hlen1).
    change (Loop.iter (length row - j0 k) (j0 k)
              (Track2D.cast_step T bboxes k) (state, []))
      with (Loop.for_ (j0 k) (length row)
              (Track2D.cast_step T bboxes k) (state, [])) in Hinner.
    rewrite Hinner. simpl.
    rewrite (drop_S bboxes row k Hrow), imap_cons, Nat.add_0_r.
    rewrite (imap_ext _ (fun m r => class_states T (drop (j0 (S k + m)%nat) r)))
      by (intros m r _; simpl; rewrite Nat.add_succ_r; reflexivity).
    destruct (IH (S k) state1
                (states ++ [class_states T (drop (j0 k) row)]))
      as (state2 & Hrest & Hlen2); [lia | exact Hlen1 |].
    exists state2. rewrite Hrest. split; [|exact Hlen2].
    rewrite <- app_assoc. reflexivity.
Qed.

(** [Track2D::cast2states] runs to completion.  It sweeps the classes from
    [i0] on and, in class [i], the boxes from [j0 i] on; for each class
    swept it emits the states of the accepted boxes swept. *)
Lemma Track2D_cast2states_sweep (i0 : nat) (j0 : nat -> nat)
      (bboxes : list (list BoundingBox)) :
  Track2D.cast2states T i0 j0 bboxes
  = Some (imap (fun m row => class_states T (drop (j0 (i0 + m)%nat) row))
               (drop i0 bboxes)).
Proof.
  unfold Track2D.cast2states. unfold Loop.for_ at 1.
  destruct (Track2D_outer_loop j0 bboxes (length bboxes - i0)%nat i0
              (replicate 6 0) [] eq_refl eq_refl) as (state' & Hrun & _).
  rewrite Hrun. reflexivity.
Qed.

(** With both counters starting at 0, as the specification asks, the
    result is one list per class, in order, each with the states of the
    accepted boxes of its class. *)
Lemma Track2D_cast2states_from_zero (bboxes : list (list BoundingBox)) :
  Track2D.cast2states T 0 (fun _ => O) bboxes
  = Some (class_states T <$> bboxes).
Proof.
  rewrite Track2D_cast2states_sweep, drop_0.
  f_equal. rewrite <- imap_const. apply imap_ext. intros m r _. reflexivity.
Qed.
End Cast2D.

(** ** The size bound the constructors store *)

(** C1 (the code departs from it). Every constructor and build function of
    [Track2D] and [Track3D] stores [bbo_p.max_bbox_width] in
    [max_bbox_height_].  With max_bbox_width = 400 and max_bbox_height = 300
    a valid box of height 350 passes the test [h > max_bbox_height_] and its
    state is emitted. *)
Theorem build_stores_width_in_max_bbox_height :
  (forall (Tr : Type) (ops : Tracker Tr) det_p kal_p tra_p bbo_p old,
      Track.max_bbox_height_ (Track.build det_p kal_p tra_p bbo_p old)
      = max_bbox_width bbo_p) /\
  max_bbox_height sample_bbo_p = 300 /\
  Track.max_bbox_height_ sample_track = 400 /\
  h_ tall_box = 350 /\
  valid_ tall_box = true /\
  Track.rejects sample_track (w_ tall_box) (h_ tall_box) = false /\
  Track2D.cast2states sample_track 0 (fun _ => O) [[tall_box]]
  = Some [[state_of tall_box]].
Proof.
  split; [reflexivity|]. repeat split; vm_compute; reflexivity.
Qed.

(** ** Uninitialised loop counters *)

(** C2 (the code departs from it). [Track2D::cast2states] sweeps the classes
    from the value [i0] its counter happens to hold: for every input it
    returns [bboxes.size() - i0] lists, one per class only when [i0 = 0].
    On two classes with one accepted box each: with [i0 = 1] the list of
    class 0 is missing and the first list holds the state of class 1; with
    [j] entering at 1 both lists are empty; with both counters at 0 the
    result is the one the specification describes. *)
Theorem cast2states_starts_where_counters_are :
  (forall (Tr : Type) (T : Track.t Tr) (i0 : nat) (j0 : nat -> nat)
          (bboxes : list (list BoundingBox)),
      exists states,
        Track2D.cast2states T i0 j0 bboxes = Some states /\
        length states = (length bboxes - i0)%nat) /\
  Track2D.cast2states sample_track 1 (fun _ => O) two_classes
  = Some [[state_of class1_box]] /\
  Track2D.cast2states sample_track 0 (fun _ => 1%nat) two_classes
  = Some [[]; []] /\
  Track2D.cast2states sample_track 0 (fun _ => O) two_classes
  = Some [[state_of class0_box]; [state_of class1_box]].
Proof.
  split.
  - intros Tr T i0 j0 bboxes. eexists. split.
    + apply Track2D_cast2states_sweep.
    + rewrite length_imap, length_drop. reflexivity.
  - repeat split; vm_compute; reflexivity.
Qed.

(** The copy of [cast2states] in the in-image tracking node fills the
    state as (x, y, 0, 0, h, w): height at index 4, width at index 5. *)
Lemma ROSDetector_fill_state (b : BoundingBox) (state : list Q) :
  length state = 6%nat ->
  ROSDetector.fill_state b state = Some [x_ b; y_ b; 0; 0; h_ b; w_ b].
Proof.
  intros Hlen.
  destruct state as [|a0 [|a1 [|a2 [|a3 [|a4 [|a5 [|a6 rest]]]]]]];
    try discriminate Hlen.
  reflexivity.
Qed.

(** ** cast2states in three dimensions *)

(** C3 (the code departs from it). [Track3D::cast2states] allocates
    [state] with 6 entries, not 9: index 6 is out of bounds, so is every
    write [state[6] = w_] whatever the six entries hold, and the run on one
    accepted 3D box ends there. *)
Theorem Track3D_state_has_six_entries :
  Track3D.state_size = 6%nat /\
  (forall (x : Q), Vec.write (replicate Track3D.state_size 0) 6 x = None) /\
  (forall (b : BoundingBox3D.t) (a0 a1 a2 a3 a4 a5 : Q),
      Track3D.fill_state b [a0; a1; a2; a3; a4; a5] = None) /\
  BoundingBox3D.valid_ sample_box3D = true /\
  Track.rejects sample_track3D (BoundingBox3D.w_ sample_box3D)
                (BoundingBox3D.h_ sample_box3D) = false /\
  Track3D.cast2states sample_track3D 0 (fun _ => O) [[sample_box3D]] = None.
Proof.
  repeat split; vm_compute; reflexivity.
Qed.

Lemma Track3D_fill_state_faults (b : BoundingBox3D.t) (state : list Q) :
  length state = Track3D.state_size -> Track3D.fill_state b state = None.
Proof.
  intros Hlen.
  destruct state as [|a0 [|a1 [|a2 [|a3 [|a4 [|a5 [|a6 rest]]]]]]];
    try discriminate Hlen.
  reflexivity.
Qed.

(** ** The drawing loops *)

Lemma Draw_step_in_bounds rect_color (bboxes : list (list BoundingBox))
      (i j : nat) (row : list BoundingBox) (image : list DrawOp) :
  bboxes !! i = Some row -> (j < length row)%nat ->
  is_Some (Draw.step rect_color bboxes i j image).
Proof.
  intros Hrow Hj. unfold Draw.step. rewrite (at2_lookup bboxes i j row Hrow).
  destruct (lookup_lt_is_Some_2 row j Hj) as [b ->].
  destruct (negb (valid_ b)); eauto.
Qed.

Lemma Draw_step_past_end rect_color (bboxes : list (list BoundingBox))
      (i : nat) (row : list BoundingBox) (image : list DrawOp) :
  bboxes !! i = Some row ->
  Draw.step rect_color bboxes i (length row) image = None.
Proof.
  intros Hrow. unfold Draw.step. rewrite (at2_lookup bboxes i _ row Hrow).
  rewrite lookup_ge_None_2 by lia. reflexivity.
Qed.

(** A sweep of row [i] that goes up to index [length row] included faults. *)
Lemma Draw_row_one_too_far rect_color (bboxes : list (list BoundingBox))
      (i : nat) (row : list BoundingBox) :
  bboxes !! i = Some row ->
  forall n k image, (k + n = length row + 1)%nat -> (k <= length row)%nat ->
    Loop.iter n k (Draw.step rect_color bboxes i) image = None.
Proof.
  intros Hrow. induction n as [|n IH]; intros k image Hn Hk; [lia|]. simpl.
  destruct (decide (k = length row)) as [->|Hne].
  - rewrite (Draw_step_past_end rect_color bboxes i row image Hrow). reflexivity.
  - destruct (Draw_step_in_bounds rect_color bboxes i k row image Hrow)
      as [image' ->]; [lia|].
    apply IH; lia.
Qed.

(** A sweep that stops before [length row] runs to completion. *)
Lemma Draw_row_in_bounds rect_color (bboxes : list (list BoundingBox))
      (i : nat) (row : list BoundingBox) :
  bboxes !! i = Some row ->
  forall n k image, (k + n = length row)%nat ->
    is_Some (Loop.iter n k (Draw.step rect_color bboxes i) image).
Proof.
  intros Hrow. induction n as [|n IH]; intros k image Hn; simpl; [eauto|].
  destruct (Draw_step_in_bounds rect_color bboxes i k row image Hrow)
    as [image' ->]; [lia|].
  apply IH. lia.
Qed.

(** The drawing loop of the global tracking node, with the bound
    [j < bboxes[i].size()], never reads out of bounds. *)
Lemma global_node_loop_in_bounds (bboxes : list (list BoundingBox))
      (image : list DrawOp) :
  is_Some (Draw.global_node_loop bboxes image).
Proof.
  unfold Draw.global_node_loop, Draw.loops, Loop.for_. rewrite Nat.sub_0_r.
  assert (Hgen : forall n k img, (k + n = length bboxes)%nat ->
            is_Some (Loop.iter n k
              (fun i img =>
                 match bboxes !! i with
                 | Some row =>
                     Loop.iter (length row - 0) 0
                       (Draw.step (fun i => i) bboxes i) img
                 | None => None
                 end) img)).
  { induction n as [|n IH]; intros k img Hn; simpl; [eauto|].
    destruct (lookup_lt_is_Some_2 bboxes k) as [row Hrow]; [lia|].
    rewrite Hrow, Nat.sub_0_r.
    destruct (Draw_row_in_bounds (fun i => i) bboxes k row Hrow
                (length row) 0%nat img eq_refl) as [img' ->].
    apply IH. lia. }
  apply Hgen. reflexivity.
Qed.

(** C8 (the code departs from it). With the bound
    [j < bboxes[i].size()+1], [generateDetectionImage] and the drawing loop
    of the in-image node evaluate [bboxes[0][bboxes[0].size()]] as soon as
    there is one class: the pair is among the reads, it is out of bounds,
    and the run ends there. *)
Theorem generateDetectionImage_reads_past_end :
  forall (row : list BoundingBox) (rest : list (list BoundingBox))
         (image : list DrawOp),
    (0%nat, length row) ∈ Draw.reads (fun n => n + 1)%nat (row :: rest) /\
    Vec.at2 (row :: rest) 0 (length row) = None /\
    Draw.generateDetectionImage (row :: rest) image = None /\
    Draw.in_image_node_loop (row :: rest) image = None.
Proof.
  intros row rest image.
  assert (Hrun : Draw.loops (fun n => n + 1)%nat (fun _ => O) (row :: rest) image
                 = None).
  { unfold Draw.loops, Loop.for_. simpl.
    rewrite (Draw_row_one_too_far (fun _ => O) (row :: rest) 0 row eq_refl);
      [reflexivity | lia | lia]. }
  repeat split.
  - unfold Draw.reads. simpl. apply elem_of_app. left.
    apply list_elem_of_fmap. exists (length row). split; [reflexivity|].
    apply elem_of_seq. lia.
  - unfold Vec.at2. simpl. apply lookup_ge_None_2. lia.
  - exact Hrun.
  - exact Hrun.
Qed.

(** ** The loop over the per-class trackers *)

Section TrackFacts.
Context {Tr : Type} `{Tracker Tr}.

(** The loop of [track] hands [states[i]] to [Trackers_[i]], for every
    [i] below [tracker_states.size()], and touches no other tracker. *)
Lemma track_loop_dispatch (time_step : Q) (states : list (list (list Q))) :
  forall n k (trs : list Tr) (tss : list TrackerStates),
    (k + n = length tss)%nat ->
    (length tss <= length states)%nat ->
    (length tss <= length trs)%nat ->
    exists trs' tss',
      Loop.iter n k (Track.track_step time_step states) (trs, tss)
      = Some (trs', tss') /\
      length trs' = length trs /\ length tss' = length tss /\
      (forall i, (i < k \/ k + n <= i)%nat -> trs' !! i = trs !! i) /\
      (forall i, (i < k)%nat -> tss' !! i = tss !! i) /\
      (forall i, (k <= i < k + n)%nat ->
         exists st tr ts,
           states !! i = Some st /\ trs !! i = Some tr /\ tss !! i = Some ts /\
           trs' !! i = Some (update time_step st tr) /\
           tss' !! i = Some (getStates (update time_step st tr) ts)).
Proof.
  induction n as [|n IH]; intros k trs tss Hn Hst Htr; simpl.
  - exists trs, tss. repeat split; try reflexivity. intros i Hi. lia.
  - destruct (lookup_lt_is_Some_2 states k) as [st Hst_k]; [lia|].
    destruct (lookup_lt_is_Some_2 trs k) as [tr Htr_k]; [lia|].
    destruct (lookup_lt_is_Some_2 tss k) as [ts Hts_k]; [lia|].
    unfold Track.track_step at 1. simpl. rewrite Hst_k, Htr_k, Hts_k. simpl.
    destruct (IH (S k) (<[k := update time_step st tr]> trs)
                (<[k := getStates (update time_step st tr) ts]> tss))
      as (trs' & tss' & Hrun & Hl1 & Hl2 & Hout & Hlow & Hin);
      rewrite ?length_insert; try lia.
    exists trs', tss'. rewrite length_insert in Hl1. rewrite length_insert in Hl2.
    split; [exact Hrun|]. split; [exact Hl1|]. split; [exact Hl2|].
    split; [|split].
    + intros i Hi. rewrite Hout by lia. apply list_lookup_insert_ne. lia.
    + intros i Hi. rewrite Hlow by lia. apply list_lookup_insert_ne. lia.
    + intros i Hi. destruct (decide (i = k)) as [->|Hne].
      * exists st, tr, ts. do 3 (split; [assumption|]).
        rewrite Hout, Hlow by lia.
        split; apply list_lookup_insert_eq; lia.
      * destruct (Hin i) as (st' & tr' & ts' & H1 & H2 & H3 & H4 & H5); [lia|].
        rewrite list_lookup_insert_ne in H2 by lia.
        rewrite list_lookup_insert_ne in H3 by lia.
        exists st', tr', ts'. auto.
Qed.

Variable T : Track.t Tr.

(** [Track2D::track] as the code has it: tracker [i] receives the states
    of class [i0 + i], from box [j0 (i0 + i)] on. *)
Lemma track_dispatch_shifted (i0 : nat) (j0 : nat -> nat)
      (bboxes : list (list BoundingBox))
      (tracker_states : list TrackerStates) (time_step : Q) :
  (length tracker_states <= length bboxes - i0)%nat ->
  (length tracker_states <= length (Track.Trackers_ T))%nat ->
  exists trs' tss',
    Track2D.track_dt T i0 j0 bboxes tracker_states time_step
    = Some (trs', tss') /\
    forall i, (i < length tracker_states)%nat ->
      exists row tr,
        bboxes !! (i0 + i)%nat = Some row /\
        Track.Trackers_ T !! i = Some tr /\
        trs' !! i
        = Some (update time_step
                  (class_states T (drop (j0 (i0 + i)%nat) row)) tr).
Proof.
  intros Hbb Htr. unfold Track2D.track_dt.
  rewrite Track2D_cast2states_sweep. simpl.
  set (states := imap _ _).
  assert (Hlen : length states = (length bboxes - i0)%nat)
    by (unfold states; rewrite length_imap, length_drop; reflexivity).
  destruct (track_loop_dispatch time_step states (length tracker_states) 0
              (Track.Trackers_ T) tracker_states)
    as (trs' & tss' & Hrun & _ & _ & _ & _ & Hin); try lia.
  exists trs', tss'. unfold Track.track_loop, Loop.for_.
  rewrite Nat.sub_0_r. split; [exact Hrun|].
  intros i Hi. destruct (Hin i) as (st & tr & ts & Hst & Htr_i & _ & Hnew & _);
    [lia|].
  unfold states in Hst. rewrite list_lookup_imap, lookup_drop in Hst.
  destruct (bboxes !! (i0 + i)%nat) as [row|] eqn:Hrow; [|discriminate].
  simpl in Hst. inversion Hst; subst st.
  exists row, tr. auto.
Qed.

(** With the counters of [cast2states] starting at 0, tracker [i] is
    updated with the states of the accepted boxes of class [i] and of no
    other class. *)
Lemma track_dispatch_from_zero (bboxes : list (list BoundingBox))
      (tracker_states : list TrackerStates) (time_step : Q) :
  (length tracker_states <= length bboxes)%nat ->
  (length tracker_states <= length (Track.Trackers_ T))%nat ->
  exists trs' tss',
    Track2D.track_dt T 0 (fun _ => O) bboxes tracker_states time_step
    = Some (trs', tss') /\
    forall i, (i < length tracker_states)%nat ->
      exists row tr,
        bboxes !! i = Some row /\
        Track.Trackers_ T !! i = Some tr /\
        trs' !! i = Some (update time_step (class_states T row) tr).
Proof.
  intros Hbb Htr.
  destruct (track_dispatch_shifted 0 (fun _ => O) bboxes tracker_states
              time_step) as (trs' & tss' & Hrun & Hin); try lia.
  exists trs', tss'. split; [exact Hrun|]. exact Hin.
Qed.
End TrackFacts.

(** C9 (the code departs from it). Two classes with one accepted box each
    and one tracker state to fill; the counter of [cast2states] enters at 1.
    [Track2D::track] updates tracker 0 with the state of the class 1 box and
    leaves tracker 1 alone.  With the counter entering at 0 tracker 0
    receives the class 0 box. *)
Theorem track_feeds_tracker_the_class_the_counter_starts_at :
  fst <$> Track2D.track sample_track 1 (fun _ => O) two_classes [∅]
  = Some [[[state_of class1_box]]; []] /\
  fst <$> Track2D.track sample_track 0 (fun _ => O) two_classes [∅]
  = Some [[[state_of class0_box]]; []].
Proof.
  split; vm_compute; reflexivity.
Qed.

(** ** Boxes that are not valid *)

Lemma emitted_state_origin {Tr} (T : Track.t Tr) (row : list BoundingBox)
      (n : nat) (s : list Q) :
  s ∈ class_states T (drop n row) ->
  exists j b, row !! j = Some b /\ valid_ b = true /\ s = state_of b.
Proof.
  unfold class_states. intros Hs.
  apply list_elem_of_fmap in Hs as (b & -> & Hb).
  apply list_elem_of_In, filter_In in Hb as [Hin Hacc].
  apply list_elem_of_In, (subseteq_drop n row), list_elem_of_lookup in Hin
    as [j Hj].
  unfold accepted in Hacc. apply andb_true_iff in Hacc as [Hvalid _].
  exists j, b. auto.
Qed.

(** C10. A box whose valid flag is false comes out of
    [adjustBoundingBoxes] (library and node) as it went in; the rounds of
    [Track2D::cast2states] and [Track3D::cast2states] that meet it leave
    [state] and [state_vec] as they are; and every state
    [Track2D::cast2states] emits, wherever its counters start, is the state
    of a valid box of the class swept. *)
Theorem invalid_boxes_are_left_alone :
  (forall (d : Detect.t) (bboxes : list (list BoundingBox)) (i j : nat)
          (b : BoundingBox),
      Vec.at2 bboxes i j = Some b -> valid_ b = false ->
      exists out,
        Detect.adjustBoundingBoxes d bboxes = Some out /\
        Vec.at2 out i j = Some b)
  /\
  (forall (d : ROSDetector.t) (bboxes : list (list BoundingBox)) (i j : nat)
          (b : BoundingBox),
      Vec.at2 bboxes i j = Some b -> valid_ b = false ->
      exists out,
        ROSDetector.adjustBoundingBoxes d bboxes = Some out /\
        Vec.at2 out i j = Some b)
  /\
  (forall (Tr : Type) (T : Track.t Tr) (bboxes : list (list BoundingBox))
          (i j : nat) (b : BoundingBox) (s : list Q * list (list Q)),
      Vec.at2 bboxes i j = Some b -> valid_ b = false ->
      Track2D.cast_step T bboxes i j s = Some s)
  /\
  (forall (Tr : Type) (T : Track.t Tr) (i0 : nat) (j0 : nat -> nat)
          (bboxes : list (list BoundingBox)),
      exists states,
        Track2D.cast2states T i0 j0 bboxes = Some states /\
        forall k state_vec s,
          states !! k = Some state_vec -> s ∈ state_vec ->
          exists j b,
            Vec.at2 bboxes (i0 + k) j = Some b /\
            valid_ b = true /\ s = state_of b)
  /\
  (forall (Tr : Type) (T : Track.t Tr) (bboxes : list (list BoundingBox3D.t))
          (i j : nat) (b : BoundingBox3D.t) (s : list Q * list (list Q)),
      Vec.at2 bboxes i j = Some b -> BoundingBox3D.valid_ b = false ->
      Track3D.cast_step T bboxes i j s = Some s).
Proof.
  repeat apply conj.
  - intros d bboxes i j b Hb Hvalid.
    destruct (Detect_adjusted_at d bboxes i j b Hb) as (out & Hout & Hat).
    exists out. split; [exact Hout|].
    rewrite Hat. unfold Detect.adjust_box. rewrite Hvalid. reflexivity.
  - intros d bboxes i j b Hb Hvalid.
    destruct (ROSDetector_adjusted_at d bboxes i j b Hb) as (out & Hout & Hat).
    exists out. split; [exact Hout|].
    rewrite Hat. unfold ROSDetector.adjust_box. rewrite Hvalid. reflexivity.
  - intros Tr T bboxes i j b s Hb Hvalid.
    unfold Track2D.cast_step. rewrite Hb. simpl. rewrite Hvalid. reflexivity.
  - intros Tr T i0 j0 bboxes. eexists. split.
    + apply Track2D_cast2states_sweep.
    + intros k state_vec s Hk Hs.
      rewrite list_lookup_imap, lookup_drop in Hk.
      destruct (bboxes !! (i0 + k)%nat) as [row|] eqn:Hrow; [|discriminate].
      simpl in Hk. inversion Hk; subst state_vec.
      destruct (emitted_state_origin T row _ s Hs) as (j & b & Hj & Hvalid & Heq).
      exists j, b. unfold Vec.at2. rewrite Hrow. auto.
  - intros Tr T bboxes i j b s Hb Hvalid.
    unfold Track3D.cast_step. rewrite Hb. simpl. rewrite Hvalid. reflexivity.
Qed.

Lemma invalid_boxes_are_left_alone_witness :
  (exists out,
      Detect.adjustBoundingBoxes sample_detect [[sample_box; invalid_box]]
      = Some out /\
      Vec.at2 out 0 1 = Some invalid_box)
  /\
  (exists out,
      ROSDetector.adjustBoundingBoxes sample_node [[sample_box; invalid_box]]
      = Some out /\
      Vec.at2 out 0 1 = Some invalid_box)
  /\
  Track2D.cast_step sample_track [[sample_box; invalid_box]] 0 1
    (replicate 6 0, []) = Some (replicate 6 0, [])
  /\
  Track3D.cast_step sample_track3D [[invalid_box3D]] 0 0
    (replicate 6 0, []) = Some (replicate 6 0, []).
Proof.
  destruct invalid_boxes_are_left_alone as (Hlib & Hnode & H2D & _ & H3D).
  split; [|split; [|split]].
  - apply (Hlib sample_detect [[sample_box; invalid_box]] 0%nat 1%nat);
      reflexivity.
  - apply (Hnode sample_node [[sample_box; invalid_box]] 0%nat 1%nat);
      reflexivity.
  - apply (H2D _ sample_track [[sample_box; invalid_box]] 0%nat 1%nat invalid_box);
      reflexivity.
  - apply (H3D _ sample_track3D [[invalid_box3D]] 0%nat 0%nat invalid_box3D);
      reflexivity.
Defined.

(** * Further properties *)

(** ** Loop invariants *)

(** A loop whose rounds keep an invariant indexed by the counter, and never
    fault under it, runs to completion and ends in the invariant. *)
Lemma iter_inv_total {St} (Inv : nat -> St -> Prop)
      (body : nat -> St -> option St) :
  forall n start s,
    Inv start s ->
    (forall k s, (start <= k < start + n)%nat -> Inv k s ->
       exists s', body k s = Some s' /\ Inv (S k) s') ->
    exists s', Loop.iter n start body s = Some s' /\ Inv (start + n)%nat s'.
Proof.
  induction n as [|n IH]; intros start s Hinv Hbody; simpl.
  - exists s. rewrite Nat.add_0_r. auto.
  - destruct (Hbody start s) as (s1 & Hs1 & Hinv1); [lia | exact Hinv |].
    rewrite Hs1.
    destruct (IH (S start) s1 Hinv1) as (s2 & Hs2 & Hinv2).
    + intros k s0 Hk. apply Hbody. lia.
    + exists s2. split; [exact Hs2|].
      replace (start + S n)%nat with (S start + n)%nat by lia. exact Hinv2.
Qed.

(** A loop that runs to completion ends in every invariant its completed
    rounds keep. *)
Lemma iter_inv_partial {St} (Inv : nat -> St -> Prop)
      (body : nat -> St -> option St) :
  forall n start s s',
    Inv start s ->
    (forall k s s', (start <= k < start + n)%nat -> Inv k s ->
       body k s = Some s' -> Inv (S k) s') ->
    Loop.iter n start body s = Some s' ->
    Inv (start + n)%nat s'.
Proof.
  induction n as [|n IH]; intros start s s' Hinv Hbody Hrun; simpl in Hrun.
  - inversion Hrun; subst s'. rewrite Nat.add_0_r. exact Hinv.
  - destruct (body start s) as [s1|] eqn:Hs1; [|discriminate].
    replace (start + S n)%nat with (S start + n)%nat by lia.
    apply (IH (S start) s1 s'); [| |exact Hrun].
    + apply (Hbody start s s1); [lia | exact Hinv | exact Hs1].
    + intros k s0 s0' Hk. apply Hbody. lia.
Qed.

(** ** What adjustBoundingBoxes keeps *)

(** X1. [Detect::adjustBoundingBoxes] never leaves the bounds of its
    argument and returns as many classes with as many boxes each; no box
    changes its confidence, its class id or its valid flag. *)
Theorem Detect_adjustBoundingBoxes_frame :
  forall (d : Detect.t) (bboxes : list (list BoundingBox)),
  exists out,
    Detect.adjustBoundingBoxes d bboxes = Some out /\
    Forall2 (Forall2 (fun b b' =>
                        confidence_ b' = confidence_ b /\
                        class_id_ b' = class_id_ b /\
                        valid_ b' = valid_ b))
            bboxes out.
Proof.
  intros d bboxes. eexists. split; [apply Detect_adjustBoundingBoxes_map|].
  apply Forall2_fmap_r, Forall_Forall2_diag, Forall_forall. intros row _.
  apply Forall2_fmap_r, Forall_Forall2_diag, Forall_forall. intros b _.
  unfold Detect.adjust_box, Detect.adjust_valid.
  destruct (valid_ b) eqn:Hv; simpl; rewrite ?Hv; auto.
Qed.

(** X2. [ROSDetector::adjustBoundingBoxes] (both nodes) never leaves the
    bounds of its argument and returns as many classes with as many boxes
    each; no box changes its width, height, confidence, class id or valid
    flag, and the corners of every valid box end inside the image
    rectangle on the side they are clamped: 0 <= x_min, x_max <= image_cols,
    0 <= y_min, y_max <= image_rows. *)
Theorem ROSDetector_adjustBoundingBoxes_frame :
  forall (d : ROSDetector.t) (bboxes : list (list BoundingBox)),
  exists out,
    ROSDetector.adjustBoundingBoxes d bboxes = Some out /\
    Forall2 (Forall2 (fun b b' =>
                        w_ b' = w_ b /\ h_ b' = h_ b /\
                        confidence_ b' = confidence_ b /\
                        class_id_ b' = class_id_ b /\
                        valid_ b' = valid_ b /\
                        (valid_ b = true ->
                         0 <= x_min_ b' /\
                         x_max_ b' <= inject_Z (ROSDetector.image_cols_ d) /\
                         0 <= y_min_ b' /\
                         y_max_ b' <= inject_Z (ROSDetector.image_rows_ d))))
            bboxes out.
Proof.
  intros d bboxes. eexists. split; [apply ROSDetector_adjustBoundingBoxes_map|].
  apply Forall2_fmap_r, Forall_Forall2_diag, Forall_forall. intros row _.
  apply Forall2_fmap_r, Forall_Forall2_diag, Forall_forall. intros b _.
  unfold ROSDetector.adjust_box, ROSDetector.adjust_valid.
  destruct (valid_ b) eqn:Hv; simpl; rewrite Hv; simpl.
  - do 4 (split; [reflexivity|]). split; [exact Hv|]. intros _.
    unfold Float.of_int.
    set (x' := x_ b - inject_Z (ROSDetector.padding_cols_ d)).
    set (y' := y_ b - inject_Z (ROSDetector.padding_rows_ d)).
    destruct (max_spec (x' - w_ b / 2) 0) as [[? ->]|[? ->]];
    destruct (min_spec (x' + w_ b / 2) (inject_Z (ROSDetector.image_cols_ d)))
      as [[? ->]|[? ->]];
    destruct (max_spec (y' - h_ b / 2) 0) as [[? ->]|[? ->]];
    destruct (min_spec (y' + h_ b / 2) (inject_Z (ROSDetector.image_rows_ d)))
      as [[? ->]|[? ->]];
    repeat split; lra.
  - repeat split; try reflexivity; try assumption; discriminate.
Qed.

(** X3. [Detect::adjustBoundingBoxes] undoes the letterbox: a valid box
    whose center and extents are those of a box (x, y, w, h) of the camera
    image scaled by r and shifted by the paddings comes back with center
    (x, y), extents (w, h) and corners x -/+ w/2, y -/+ h/2, for every scale
    other than 0. *)
Theorem adjustBoundingBoxes_undoes_scale_and_shift
        (d : Detect.t) (bboxes : list (list BoundingBox)) (i j : nat)
        (bp : BoundingBox) (x y w h : Q) :
  Vec.at2 bboxes i j = Some bp ->
  valid_ bp = true ->
  ~ Detect.r_ d == 0 ->
  x_ bp == Detect.r_ d * x + inject_Z (Detect.padding_cols_ d) ->
  y_ bp == Detect.r_ d * y + inject_Z (Detect.padding_rows_ d) ->
  w_ bp == Detect.r_ d * w ->
  h_ bp == Detect.r_ d * h ->
  exists out b',
    Detect.adjustBoundingBoxes d bboxes = Some out /\
    Vec.at2 out i j = Some b' /\
    x_ b' == x /\ y_ b' == y /\ w_ b' == w /\ h_ b' == h /\
    x_min_ b' == x - w / 2 /\ x_max_ b' == x + w / 2 /\
    y_min_ b' == y - h / 2 /\ y_max_ b' == y + h / 2.
Proof.
  intros Hb Hvalid Hr Hx Hy Hw Hh.
  destruct (Detect_adjusted_at d bboxes i j bp Hb) as (out & Hout & Hat).
  exists out, (Detect.adjust_box d bp). do 2 (split; [assumption|]).
  unfold Detect.adjust_box. rewrite Hvalid.
  unfold Detect.adjust_valid, Float.of_int; simpl.
  rewrite Hx, Hy, Hw, Hh.
  repeat split; field; exact Hr.
Qed.

Lemma adjustBoundingBoxes_undoes_scale_and_shift_witness :
  exists out b',
    Detect.adjustBoundingBoxes sample_detect [[sample_box]] = Some out /\
    Vec.at2 out 0 0 = Some b' /\
    x_ b' == 320 /\ y_ b' == 20 /\ w_ b' == 40 /\ h_ b' == 60 /\
    x_min_ b' == 320 - 40 / 2 /\ x_max_ b' == 320 + 40 / 2 /\
    y_min_ b' == 20 - 60 / 2 /\ y_max_ b' == 20 + 60 / 2.
Proof.
  apply (adjustBoundingBoxes_undoes_scale_and_shift sample_detect
           [[sample_box]] 0 0 sample_box 320 20 40 60);
    first [reflexivity | q_closed].
Defined.

(** ** padImage *)

Lemma scale_is_one (s m : Z) :
  Qeq_bool (Float.of_int s / Float.of_int m) 1 = true <-> s = m /\ m <> 0%Z.
Proof.
  unfold Float.of_int. rewrite Qeq_bool_iff. split.
  - intros Heq. destruct (Z.eq_dec m 0%Z) as [->|Hm].
    + exfalso. unfold Qdiv in Heq. simpl in Heq.
      rewrite Qmult_0_r in Heq. discriminate Heq.
    + split; [|exact Hm].
      assert (Hm' : ~ inject_Z m == 0).
      { intros H0. apply Hm. apply (inject_Z_injective m 0%Z). exact H0. }
      apply inject_Z_injective.
      rewrite <- (Qmult_div_r (inject_Z s) (inject_Z m)) by exact Hm'.
      rewrite Heq. ring.
  - intros [-> Hm]. apply Qmult_inv_r.
    intros H0. apply Hm. apply (inject_Z_injective m 0%Z). exact H0.
Qed.

Lemma half_gap (s t : Z) :
  (0 <= t <= s)%Z ->
  (0 <= Z.quot (s - t) 2 /\ Z.quot (s - t) 2 + t <= s /\
   s - t - 1 <= 2 * Z.quot (s - t) 2 <= s - t)%Z.
Proof.
  intros Ht. rewrite Z.quot_div_nonneg by lia.
  pose proof (Z.div_mod (s - t) 2 ltac:(lia)) as Hdm.
  pose proof (Z.mod_pos_bound (s - t) 2 ltac:(lia)) as Hmod.
  lia.
Qed.

(** X4. [ROSDetector::padImage] (both nodes) changes nothing when the
    longer side of the image is 0 or differs from [image_size_]: the
    paddings keep the values of the last image that had that size.  When
    the longer side equals [image_size_], the image is centred: each padding
    is non-negative, leaves room for the image inside the square, is half of
    the free space rounded down, and the padding of the longer side is 0. *)
Theorem ROSDetector_padImage_cases :
  forall (rows cols : Z) (d : ROSDetector.t),
    (ROSDetector.image_size_ d <> Z.max rows cols \/ Z.max rows cols = 0%Z ->
     ROSDetector.padImage rows cols d = d)
    /\
    (ROSDetector.image_size_ d = Z.max rows cols ->
     (0 <= rows)%Z -> (0 <= cols)%Z -> (0 < Z.max rows cols)%Z ->
     let d' := ROSDetector.padImage rows cols d in
     let s := ROSDetector.image_size_ d in
     (0 <= ROSDetector.padding_rows_ d' /\
      ROSDetector.padding_rows_ d' + rows <= s /\
      s - rows - 1 <= 2 * ROSDetector.padding_rows_ d' <= s - rows /\
      0 <= ROSDetector.padding_cols_ d' /\
      ROSDetector.padding_cols_ d' + cols <= s /\
      s - cols - 1 <= 2 * ROSDetector.padding_cols_ d' <= s - cols /\
      (ROSDetector.padding_rows_ d' = 0 \/ ROSDetector.padding_cols_ d' = 0))%Z).
Proof.
  intros rows cols d. split.
  - intros Hne. unfold ROSDetector.padImage.
    destruct (Qeq_bool _ 1) eqn:E; [|reflexivity].
    apply scale_is_one in E. lia.
  - intros Hs Hrows Hcols Hmax d' s. unfold d', ROSDetector.padImage.
    assert (E : Qeq_bool (Float.of_int (ROSDetector.image_size_ d) /
                          Float.of_int (Z.max rows cols)) 1 = true)
      by (apply scale_is_one; lia).
    rewrite E. simpl. fold s.
    destruct (half_gap s rows) as (H1 & H2 & H3); [unfold s; lia|].
    destruct (half_gap s cols) as (H4 & H5 & H6); [unfold s; lia|].
    do 6 (split; [assumption|]).
    destruct (Z.max_spec rows cols) as [[_ Hm]|[_ Hm]].
    + right. replace cols with s by (unfold s; lia).
      rewrite Z.sub_diag. reflexivity.
    + left. replace rows with s by (unfold s; lia).
      rewrite Z.sub_diag. reflexivity.
Qed.

Lemma ROSDetector_padImage_cases_witness :
  ROSDetector.padImage 480 640 (ROSDetector.mk 416 480 640 7 9 60 60 400 300)
  = ROSDetector.mk 416 480 640 7 9 60 60 400 300
  /\
  (0 <= ROSDetector.padding_rows_ sample_node /\
   ROSDetector.padding_rows_ sample_node + 480 <= 640 /\
   640 - 480 - 1 <= 2 * ROSDetector.padding_rows_ sample_node <= 640 - 480 /\
   0 <= ROSDetector.padding_cols_ sample_node /\
   ROSDetector.padding_cols_ sample_node + 640 <= 640 /\
   640 - 640 - 1 <= 2 * ROSDetector.padding_cols_ sample_node <= 640 - 640 /\
   (ROSDetector.padding_rows_ sample_node = 0 \/
    ROSDetector.padding_cols_ sample_node = 0))%Z.
Proof.
  split.
  - apply (proj1 (ROSDetector_padImage_cases 480 640
                    (ROSDetector.mk 416 480 640 7 9 60 60 400 300))).
    left. discriminate.
  - apply (proj2 (ROSDetector_padImage_cases 480 640
                    (ROSDetector.mk 640 480 640 0 0 60 60 400 300)));
      first [reflexivity | discriminate].
Defined.

(** X5. [Detect::padImage] sets the scale that sends the longer side of the
    image onto the side of the square (r * max(rows, cols) = image_size_),
    keeps the configured geometry, and, whenever [cv::resize] returns sides
    between 0 and [image_size_], places the resized image inside the
    square: each padding is non-negative and padding + side <= image_size_. *)
Theorem Detect_padImage_fits :
  forall (resized_side : Q -> Z -> Z) (rows cols : Z) (d : Detect.t),
    (0 < Z.max rows cols)%Z ->
    let d' := Detect.padImage resized_side rows cols d in
    let s := Detect.image_size_ d in
    Detect.r_ d' * inject_Z (Z.max rows cols) == inject_Z s /\
    Detect.image_size_ d' = s /\
    Detect.image_rows_ d' = Detect.image_rows_ d /\
    Detect.image_cols_ d' = Detect.image_cols_ d /\
    ((0 <= resized_side (Detect.r_ d') rows <= s)%Z ->
     (0 <= Detect.padding_rows_ d' /\
      Detect.padding_rows_ d' + resized_side (Detect.r_ d') rows <= s)%Z) /\
    ((0 <= resized_side (Detect.r_ d') cols <= s)%Z ->
     (0 <= Detect.padding_cols_ d' /\
      Detect.padding_cols_ d' + resized_side (Detect.r_ d') cols <= s)%Z).
Proof.
  intros resized_side rows cols d Hmax d' s.
  unfold d', Detect.padImage, Float.of_int;
    cbn [Detect.r_ Detect.image_size_ Detect.image_rows_ Detect.image_cols_
         Detect.padding_rows_ Detect.padding_cols_].
  fold s. split.
  - field. intros H0.
    assert (Z.max rows cols = 0%Z) by (apply inject_Z_injective; exact H0).
    lia.
  - do 3 (split; [reflexivity|]).
    split; intros Ht; destruct (half_gap s _ Ht) as (H1 & H2 & _); auto.
Qed.

Lemma Detect_padImage_fits_witness :
  Detect.r_ sample_detect * inject_Z (Z.max 480 640) == inject_Z 640 /\
  (0 <= Detect.padding_rows_ sample_detect /\
   Detect.padding_rows_ sample_detect + 480 <= 640)%Z.
Proof.
  destruct (Detect_padImage_fits round_side 480 640
              (Detect.buildDetect 480 640 2 (Detect.mk 0 0 0 0 0 0 0)))
    as (Hr & _ & _ & _ & Hrows & _); [reflexivity|].
  split; [exact Hr|]. apply Hrows. split; discriminate.
Defined.

(** ** What cast2states emits *)

Lemma rejects_false {Tr} (T : Track.t Tr) (w h : Q) :
  Track.rejects T w h = false <->
  Track.min_bbox_width_ T <= w /\ w <= Track.max_bbox_width_ T /\
  Track.min_bbox_height_ T <= h /\ h <= Track.max_bbox_height_ T.
Proof.
  unfold Track.rejects. float_cases; split;
    try discriminate; try (intros _; repeat split; assumption);
    intros (H1 & H2 & H3 & H4); exfalso; lra.
Qed.

Lemma accepted_iff {Tr} (T : Track.t Tr) (b : BoundingBox) :
  accepted T b = true <->
  valid_ b = true /\
  Track.min_bbox_width_ T <= w_ b /\ w_ b <= Track.max_bbox_width_ T /\
  Track.min_bbox_height_ T <= h_ b /\ h_ b <= Track.max_bbox_height_ T.
Proof.
  unfold accepted.
  rewrite andb_true_iff, negb_true_iff, rejects_false. reflexivity.
Qed.

Lemma class_states_elem {Tr} (T : Track.t Tr) (row : list BoundingBox)
      (n : nat) (s : list Q) :
  s ∈ class_states T (drop n row) <->
  exists j b, (n <= j)%nat /\ row !! j = Some b /\
              accepted T b = true /\ s = state_of b.
Proof.
  unfold class_states. rewrite list_elem_of_fmap. split.
  - intros (b & -> & Hb).
    apply list_elem_of_In, filter_In in Hb as [Hin Hacc].
    apply list_elem_of_In, list_elem_of_lookup in Hin as [m Hm].
    rewrite lookup_drop in Hm.
    exists (n + m)%nat, b. repeat split; [lia | assumption | assumption].
  - intros (j & b & Hj & Hb & Hacc & ->). exists b. split; [reflexivity|].
    apply list_elem_of_In, filter_In. split; [|exact Hacc].
    apply list_elem_of_In, list_elem_of_lookup. exists (j - n)%nat.
    rewrite lookup_drop. replace (n + (j - n))%nat with j by lia. exact Hb.
Qed.

(** X6. Whatever values its counters enter with, [Track2D::cast2states]
    stays in bounds and returns one list for each class from [i0] on; the
    list of a class holds a state exactly for the boxes from [j0] on that
    are valid and have min_bbox_width_ <= w <= max_bbox_width_ and
    min_bbox_height_ <= h <= max_bbox_height_, and that state is
    (x, y, 0, 0, w, h). *)
Theorem cast2states_emits_exactly_the_accepted :
  forall (Tr : Type) (T : Track.t Tr) (i0 : nat) (j0 : nat -> nat)
         (bboxes : list (list BoundingBox)),
  exists states,
    Track2D.cast2states T i0 j0 bboxes = Some states /\
    length states = (length bboxes - i0)%nat /\
    forall k row, bboxes !! (i0 + k)%nat = Some row ->
      exists state_vec,
        states !! k = Some state_vec /\
        forall s, s ∈ state_vec <->
          exists j b,
            (j0 (i0 + k)%nat <= j)%nat /\ row !! j = Some b /\
            valid_ b = true /\
            Track.min_bbox_width_ T <= w_ b /\
            w_ b <= Track.max_bbox_width_ T /\
            Track.min_bbox_height_ T <= h_ b /\
            h_ b <= Track.max_bbox_height_ T /\
            s = [x_ b; y_ b; 0; 0; w_ b; h_ b].
Proof.
  intros Tr T i0 j0 bboxes. eexists.
  split; [apply Track2D_cast2states_sweep|].
  split; [rewrite length_imap, length_drop; reflexivity|].
  intros k row Hrow. eexists.
  split; [rewrite list_lookup_imap, lookup_drop, Hrow; reflexivity|].
  intros s. rewrite class_states_elem. split.
  - intros (j & b & Hj & Hb & Hacc & ->). apply accepted_iff in Hacc.
    exists j, b. intuition.
  - intros (j & b & Hj & Hb & Hv & H1 & H2 & H3 & H4 & ->).
    exists j, b. repeat split; try assumption.
    apply accepted_iff. auto.
Qed.

Lemma cast2states_emits_exactly_the_accepted_witness :
  exists states state_vec,
    Track2D.cast2states sample_track 0 (fun _ => O) two_classes = Some states /\
    states !! 1%nat = Some state_vec /\
    [300; 200; 0; 0; 80; 120] ∈ state_vec.
Proof.
  destruct (cast2states_emits_exactly_the_accepted _ sample_track 0
              (fun _ => O) two_classes) as (states & Hrun & _ & Hin).
  destruct (Hin 1%nat [class1_box] eq_refl) as (state_vec & Hk & Hs).
  exists states, state_vec. do 2 (split; [assumption|]).
  apply Hs. exists 0%nat, class1_box.
  split; [simpl; lia|]. split; [reflexivity|]. split; [reflexivity|].
  repeat split; q_closed.
Defined.

(** ** Sweeps of a vector of classes *)

Section Sweep.
Context {B : Type}.
Variable bboxes : list (list B).
Variable step : nat -> nat -> list Q * list (list Q)
                -> option (list Q * list (list Q)).
Variable emit : B -> list (list Q).
Variable P : list Q -> Prop.
Variable i0 : nat.
Variable j0 : nat -> nat.

(** Every round of the inner loop that the sweep reaches appends what
    [emit] says for its box, and keeps [P] of the scratch vector. *)
Hypothesis step_emits :
  forall i j row b st sv,
    (i0 <= i)%nat -> (j0 i <= j)%nat ->
    bboxes !! i = Some row -> row !! j = Some b -> P st ->
    exists st', step i j (st, sv) = Some (st', sv ++ emit b) /\ P st'.

Let swept (i : nat) (row : list B) : list (list Q) :=
  concat (emit <$> drop (j0 i) row).

Lemma sweep_inner (i : nat) (row : list B) (st : list Q) :
  (i0 <= i)%nat -> bboxes !! i = Some row -> P st ->
  exists st',
    Loop.for_ (j0 i) (length row) (step i) (st, []) = Some (st', swept i row)
    /\ P st'.
Proof.
  intros Hi Hrow Hst. unfold Loop.for_.
  destruct (iter_inv_total
              (fun k (s : list Q * list (list Q)) =>
                 P s.1 /\
                 s.2 = concat (emit <$> take (k - j0 i) (drop (j0 i) row)))
              (step i) (length row - j0 i) (j0 i) (st, []))
    as ([st' sv'] & Hrun & Hst' & Hsv').
  - split; [exact Hst|]. rewrite Nat.sub_diag. reflexivity.
  - intros k [st1 sv1] Hk [Hst1 Hsv1]. simpl in Hst1, Hsv1.
    destruct (lookup_lt_is_Some_2 row k) as [b Hb]; [lia|].
    destruct (step_emits i k row b st1 sv1) as (st2 & Hstep & Hst2);
      try assumption; try lia.
    exists (st2, sv1 ++ emit b). split; [exact Hstep|]. split; [exact Hst2|].
    simpl. replace (S k - j0 i)%nat with (S (k - j0 i)) by lia.
    rewrite (take_S_r _ _ b)
      by (rewrite lookup_drop; replace (j0 i + (k - j0 i))%nat with k by lia;
          exact Hb).
    rewrite fmap_app, concat_app, Hsv1. simpl. rewrite app_nil_r. reflexivity.
  - exists st'. split; [|exact Hst']. rewrite Hrun. simpl in Hsv'.
    rewrite Hsv'. unfold swept.
    rewrite take_ge by (rewrite length_drop; lia). reflexivity.
Qed.

Lemma sweep_outer (st0 : list Q) :
  P st0 ->
  exists st',
    Loop.for_ i0 (length bboxes)
      (fun i (s : list Q * list (list (list Q))) =>
         row ← bboxes !! i;
         inner ← Loop.for_ (j0 i) (length row) (step i) (s.1, []);
         Some (inner.1, s.2 ++ [inner.2]))
      (st0, [])
    = Some (st', imap (fun m row => swept (i0 + m) row) (drop i0 bboxes))
    /\ P st'.
Proof.
  intros Hst0. unfold Loop.for_ at 1.
  destruct (iter_inv_total
              (fun k (s : list Q * list (list (list Q))) =>
                 P s.1 /\
                 s.2 = imap (fun m row => swept (i0 + m) row)
                            (take (k - i0) (drop i0 bboxes)))
              (fun i (s : list Q * list (list (list Q))) =>
                 row ← bboxes !! i;
                 inner ← Loop.for_ (j0 i) (length row) (step i) (s.1, []);
                 Some (inner.1, s.2 ++ [inner.2]))
              (length bboxes - i0) i0 (st0, []))
    as ([st' sts'] & Hrun & Hst' & Hsts').
  - split; [exact Hst0|]. rewrite Nat.sub_diag. reflexivity.
  - intros k [st1 sts1] Hk [Hst1 Hsts1]. simpl in Hst1, Hsts1.
    destruct (lookup_lt_is_Some_2 bboxes k) as [row Hrow]; [lia|].
    destruct (sweep_inner k row st1) as (st2 & Hinner & Hst2);
      try assumption; try lia.
    exists (st2, sts1 ++ [swept k row]).
    split; [cbn [fst snd]; rewrite Hrow; simpl; rewrite Hinner; reflexivity|].
    split; [exact Hst2|].
    simpl. replace (S k - i0)%nat with (S (k - i0)) by lia.
    rewrite (take_S_r _ _ row)
      by (rewrite lookup_drop; replace (i0 + (k - i0))%nat with k by lia;
          exact Hrow).
    rewrite imap_app, Hsts1. simpl.
    rewrite length_take, length_drop.
    replace (i0 + ((k - i0) `min` (length bboxes - i0) + 0))%nat with k by lia.
    reflexivity.
  - exists st'. split; [|exact Hst']. rewrite Hrun. simpl in Hsts'.
    rewrite Hsts'.
    rewrite take_ge by (rewrite length_drop; lia). reflexivity.
Qed.
End Sweep.

Lemma concat_emit_filter {B} (acc : B -> bool) (f : B -> list Q) (l : list B) :
  concat ((fun b => if acc b then [f b] else []) <$> l) = f <$> List.filter acc l.
Proof.
  induction l as [|b l IH]; simpl; [reflexivity|].
  destruct (acc b); simpl; [f_equal|]; apply IH.
Qed.

Lemma filtered_from_elem {B} (acc : B -> bool) (f : B -> list Q)
      (row : list B) (n : nat) (s : list Q) :
  s ∈ f <$> List.filter acc (drop n row) <->
  exists j b, (n <= j)%nat /\ row !! j = Some b /\ acc b = true /\ s = f b.
Proof.
  rewrite list_elem_of_fmap. split.
  - intros (b & -> & Hb).
    apply list_elem_of_In, filter_In in Hb as [Hin Hacc].
    apply list_elem_of_In, list_elem_of_lookup in Hin as [m Hm].
    rewrite lookup_drop in Hm.
    exists (n + m)%nat, b. repeat split; [lia | assumption | assumption].
  - intros (j & b & Hj & Hb & Hacc & ->). exists b. split; [reflexivity|].
    apply list_elem_of_In, filter_In. split; [|exact Hacc].
    apply list_elem_of_In, list_elem_of_lookup. exists (j - n)%nat.
    rewrite lookup_drop. replace (n + (j - n))%nat with j by lia. exact Hb.
Qed.

(** ** cast2states of the in-image tracking node *)

Lemma node_rejects_false (d : ROSDetector.t) (w h : Q) :
  InImageNode.rejects d w h = false <->
  ROSDetector.min_bbox_width_ d <= w /\ w <= ROSDetector.max_bbox_width_ d /\
  ROSDetector.min_bbox_height_ d <= h /\ h <= ROSDetector.max_bbox_height_ d.
Proof.
  unfold InImageNode.rejects. float_cases; split;
    try discriminate; try (intros _; repeat split; assumption);
    intros (H1 & H2 & H3 & H4); exfalso; lra.
Qed.

Lemma node_cast_step_emits (d : ROSDetector.t)
      (bboxes : list (list BoundingBox)) (i j : nat)
      (row : list BoundingBox) (b : BoundingBox)
      (st : list Q) (sv : list (list Q)) :
  bboxes !! i = Some row -> row !! j = Some b -> length st = 6%nat ->
  exists st',
    InImageNode.cast_step d bboxes i j (st, sv)
    = Some (st', sv ++ (if InImageNode.accepted d b
                        then [InImageNode.state_of b] else []))
    /\ length st' = 6%nat.
Proof.
  intros Hrow Hb Hlen. unfold InImageNode.cast_step, InImageNode.accepted.
  rewrite (at2_lookup bboxes i j row Hrow), Hb. simpl.
  destruct (valid_ b); simpl.
  - destruct (InImageNode.rejects d (w_ b) (h_ b)); simpl.
    + exists st. rewrite app_nil_r. auto.
    + rewrite (ROSDetector_fill_state b st Hlen). simpl.
      exists (InImageNode.state_of b). auto.
  - exists st. rewrite app_nil_r. auto.
Qed.

(** X7. [ROSDetector::cast2states] of the in-image tracking node, whatever
    values its counters enter with, stays in bounds and returns one list for
    each class from [i0] on; the list of a class holds a state exactly for
    the boxes from [j0] on that are valid and have
    min_bbox_width_ <= w <= max_bbox_width_ and
    min_bbox_height_ <= h <= max_bbox_height_, and that state is
    (x, y, 0, 0, h, w): the height comes before the width. *)
Theorem node_cast2states_emits_exactly_the_accepted :
  forall (d : ROSDetector.t) (i0 : nat) (j0 : nat -> nat)
         (bboxes : list (list BoundingBox)),
  exists states,
    InImageNode.cast2states d i0 j0 bboxes = Some states /\
    length states = (length bboxes - i0)%nat /\
    forall k row, bboxes !! (i0 + k)%nat = Some row ->
      exists state_vec,
        states !! k = Some state_vec /\
        forall s, s ∈ state_vec <->
          exists j b,
            (j0 (i0 + k)%nat <= j)%nat /\ row !! j = Some b /\
            valid_ b = true /\
            ROSDetector.min_bbox_width_ d <= w_ b /\
            w_ b <= ROSDetector.max_bbox_width_ d /\
            ROSDetector.min_bbox_height_ d <= h_ b /\
            h_ b <= ROSDetector.max_bbox_height_ d /\
            s = [x_ b; y_ b; 0; 0; h_ b; w_ b].
Proof.
  intros d i0 j0 bboxes.
  destruct (sweep_outer bboxes (InImageNode.cast_step d bboxes)
              (fun b => if InImageNode.accepted d b
                        then [InImageNode.state_of b] else [])
              (fun st => length st = 6%nat) i0 j0) with (st0 := replicate 6 0)
    as (st' & Hrun & _).
  - intros i j row b st sv _ _. apply node_cast_step_emits.
  - reflexivity.
  - eexists. split; [unfold InImageNode.cast2states; rewrite Hrun; reflexivity|].
    split; [simpl; rewrite length_imap, length_drop; reflexivity|].
    intros k row Hrow. eexists.
    split; [simpl; rewrite list_lookup_imap, lookup_drop, Hrow; reflexivity|].
    intros s. rewrite concat_emit_filter, filtered_from_elem.
    unfold InImageNode.accepted, InImageNode.state_of. split.
    + intros (j & b & Hj & Hb & Hacc & ->).
      apply andb_true_iff in Hacc as [Hv Hrej].
      apply negb_true_iff, node_rejects_false in Hrej.
      exists j, b. intuition.
    + intros (j & b & Hj & Hb & Hv & H1 & H2 & H3 & H4 & ->).
      exists j, b. repeat split; try assumption.
      apply andb_true_iff. split; [exact Hv|].
      apply negb_true_iff, node_rejects_false. auto.
Qed.

Lemma node_cast2states_emits_exactly_the_accepted_witness :
  exists states state_vec,
    InImageNode.cast2states sample_node 0 (fun _ => O) two_classes
    = Some states /\
    states !! 1%nat = Some state_vec /\
    [300; 200; 0; 0; 120; 80] ∈ state_vec.
Proof.
  destruct (node_cast2states_emits_exactly_the_accepted sample_node 0
              (fun _ => O) two_classes) as (states & Hrun & _ & Hin).
  destruct (Hin 1%nat [class1_box] eq_refl) as (state_vec & Hk & Hs).
  exists states, state_vec. do 2 (split; [assumption|]).
  apply Hs. exists 0%nat, class1_box.
  split; [simpl; lia|]. split; [reflexivity|]. split; [reflexivity|].
  repeat split; q_closed.
Defined.

(** ** Track3D *)

Section Track3DFacts.
Context {Tr : Type} `{Tracker Tr}.
Variable T : Track.t Tr.
Variable bboxes : list (list BoundingBox3D.t).
Variable i0 : nat.
Variable j0 : nat -> nat.

(** No box the sweep reaches passes the tests. *)
Let none_accepted : Prop :=
  forall i j b, (i0 <= i)%nat -> (j0 i <= j)%nat ->
    Vec.at2 bboxes i j = Some b -> accepted3D T b = false.

Lemma Track3D_cast_step_cases (i j : nat) (row : list BoundingBox3D.t)
      (b : BoundingBox3D.t) (st : list Q) (sv : list (list Q)) :
  bboxes !! i = Some row -> row !! j = Some b ->
  length st = Track3D.state_size ->
  Track3D.cast_step T bboxes i j (st, sv)
  = if accepted3D T b then None else Some (st, sv).
Proof.
  intros Hrow Hb Hlen. unfold Track3D.cast_step, accepted3D.
  rewrite (at2_lookup bboxes i j row Hrow), Hb. simpl.
  destruct (BoundingBox3D.valid_ b); simpl; [|reflexivity].
  destruct (Track.rejects T _ _); simpl; [reflexivity|].
  rewrite (Track3D_fill_state_faults b st Hlen). reflexivity.
Qed.

Lemma Track3D_sweep_total :
  none_accepted ->
  Track3D.cast2states T i0 j0 bboxes
  = Some (replicate (length bboxes - i0) []).
Proof.
  intros Hnone.
  destruct (sweep_outer bboxes (Track3D.cast_step T bboxes)
              (fun _ => []) (fun st => length st = Track3D.state_size)
              i0 j0) with (st0 := replicate Track3D.state_size 0)
    as (st' & Hrun & _).
  - intros i j row b st sv Hi Hj Hrow Hb Hlen.
    rewrite (Track3D_cast_step_cases i j row b st sv Hrow Hb Hlen).
    rewrite (Hnone i j b Hi Hj) by (rewrite (at2_lookup _ _ _ _ Hrow); exact Hb).
    exists st. rewrite app_nil_r. auto.
  - reflexivity.
  - unfold Track3D.cast2states. rewrite Hrun. simpl. f_equal.
    rewrite (imap_ext _ (const (fun _ => []))).
    + rewrite imap_const, (const_fmap _ _ []) by reflexivity.
      rewrite length_drop. reflexivity.
    + intros m row _. simpl. induction (drop _ row); [reflexivity|assumption].
Qed.

End Track3DFacts.

(** X8. [Track3D::cast2states] on boxes it does not accept.  If no box
    that the sweep reaches (classes from [i0] on, boxes from [j0] on) is
    valid with width and height within the stored bounds, every access of
    the function is in range and it returns one empty list per class
    swept, whatever the entry values of its counters.  Nothing is said of
    a sweep that reaches an accepted box: it writes past [state]. *)
Theorem Track3D_cast2states_without_accepted_boxes :
  forall (Tr : Type) (T : Track.t Tr) (i0 : nat) (j0 : nat -> nat)
         (bboxes : list (list BoundingBox3D.t)),
    (forall i j b, (i0 <= i)%nat -> (j0 i <= j)%nat ->
       Vec.at2 bboxes i j = Some b -> accepted3D T b = false) ->
    Track3D.cast2states T i0 j0 bboxes
    = Some (replicate (length bboxes - i0) []).
Proof.
  intros Tr T i0 j0 bboxes. apply Track3D_sweep_total.
Qed.

Lemma Track3D_cast2states_without_accepted_boxes_witness :
  accepted3D sample_track3D invalid_box3D = false /\
  accepted3D sample_track3D undersized_box3D = false /\
  Track3D.cast2states sample_track3D 0 (fun _ => O)
    [[invalid_box3D]; [undersized_box3D]; []]
  = Some [[]; []; []].
Proof.
  do 2 (split; [reflexivity|]).
  apply (Track3D_cast2states_without_accepted_boxes _ sample_track3D 0
           (fun _ => O) [[invalid_box3D]; [undersized_box3D]; []]).
  intros [|[|[|i]]] [|j] b _ _ Hb; simpl in Hb; try discriminate;
    inversion Hb; subst b; reflexivity.
Defined.

(** ** The bounds of the loop over the trackers *)

Section TrackBounds.
Context {Tr : Type} `{Tracker Tr}.

(** If the loop of [track] runs to completion, [tracker_states] was not
    longer than [states] nor than [Trackers_]. *)
Lemma track_loop_bounds (time_step : Q) (states : list (list (list Q)))
      (trs : list Tr) (tss : list TrackerStates)
      (r : list Tr * list TrackerStates) :
  Track.track_loop time_step states trs tss = Some r ->
  (length tss <= length states)%nat /\ (length tss <= length trs)%nat.
Proof.
  unfold Track.track_loop, Loop.for_. rewrite Nat.sub_0_r. intros Hrun.
  pose proof (fun Hinit Hstep => iter_inv_partial
    (fun k (s : list Tr * list TrackerStates) =>
       length s.1 = length trs /\
       (k <= length states)%nat /\ (k <= length trs)%nat)
    _ _ _ _ _ Hinit Hstep Hrun) as Hinv.
  destruct Hinv as (_ & H1 & H2); [| |simpl in *; lia].
  - simpl. repeat split; lia.
  - intros k [trs1 tss1] s' _ (Hl & _ & _) Hstep.
    unfold Track.track_step in Hstep. simpl in *.
    destruct (states !! k) as [st|] eqn:Hst; [|discriminate].
    destruct (trs1 !! k) as [tr|] eqn:Htr; [|discriminate].
    destruct (tss1 !! k) as [ts|] eqn:Hts; [|discriminate].
    simpl in Hstep. inversion Hstep; subst s'. simpl.
    apply lookup_lt_Some in Hst, Htr.
    rewrite length_insert. repeat split; lia.
Qed.

Lemma track_loop_runs (time_step : Q) (states : list (list (list Q)))
      (trs : list Tr) (tss : list TrackerStates) :
  (length tss <= length states)%nat -> (length tss <= length trs)%nat ->
  exists trs' tss',
    Track.track_loop time_step states trs tss = Some (trs', tss') /\
    length trs' = length trs /\ length tss' = length tss /\
    (forall i, (length tss <= i)%nat -> trs' !! i = trs !! i) /\
    (forall i, (i < length tss)%nat ->
       exists st tr ts,
         states !! i = Some st /\ trs !! i = Some tr /\ tss !! i = Some ts /\
         trs' !! i = Some (update time_step st tr) /\
         tss' !! i = Some (getStates (update time_step st tr) ts)).
Proof.
  intros Hst Htr. unfold Track.track_loop, Loop.for_. rewrite Nat.sub_0_r.
  destruct (track_loop_dispatch time_step states (length tss) 0 trs tss)
    as (trs' & tss' & Hrun & Hl1 & Hl2 & Hout & _ & Hin); try lia.
  exists trs', tss'. do 3 (split; [assumption|]). split.
  - intros i Hi. apply Hout. lia.
  - intros i Hi. apply Hin. lia.
Qed.

(** A completed [Track2D::track] returns as many trackers and tracker
    states as it was given and leaves the trackers from
    [tracker_states.size()] on as they were. *)
Lemma Track2D_track_dt_shape (T : Track.t Tr) (i0 : nat) (j0 : nat -> nat)
      (bboxes : list (list BoundingBox))
      (tracker_states : list TrackerStates) (time_step : Q)
      (trs' : list Tr) (tss' : list TrackerStates) :
  Track2D.track_dt T i0 j0 bboxes tracker_states time_step
  = Some (trs', tss') ->
  length trs' = length (Track.Trackers_ T) /\
  length tss' = length tracker_states /\
  forall i, (length tracker_states <= i)%nat ->
            trs' !! i = Track.Trackers_ T !! i.
Proof.
  unfold Track2D.track_dt. rewrite Track2D_cast2states_sweep. simpl.
  intros Hrun.
  destruct (track_loop_bounds _ _ _ _ _ Hrun) as [Hb1 Hb2].
  destruct (track_loop_runs time_step _ (Track.Trackers_ T)
              tracker_states Hb1 Hb2)
    as (trs2 & tss2 & Hrun2 & Hl1 & Hl2 & Hout & _).
  rewrite Hrun in Hrun2. inversion Hrun2; subst trs2 tss2. auto.
Qed.
End TrackBounds.

(** X9. [Track3D::track] on boxes [cast2states] does not accept.  If no
    box that the sweep reaches is accepted and [tracker_states] has no
    more entries than classes were swept nor than there are trackers,
    every access is in range: each tracker below [tracker_states.size()]
    is updated once, with an empty list of detections, its states are
    read back into [tracker_states], and the other trackers are as they
    were. *)
Theorem Track3D_track_without_accepted_boxes :
  forall (Tr : Type) (ops : Tracker Tr) (T : Track.t Tr) (i0 : nat)
         (j0 : nat -> nat) (bboxes : list (list BoundingBox3D.t))
         (tracker_states : list TrackerStates) (time_step : Q),
    (forall i j b, (i0 <= i)%nat -> (j0 i <= j)%nat ->
       Vec.at2 bboxes i j = Some b -> accepted3D T b = false) ->
    (length tracker_states <= length bboxes - i0)%nat ->
    (length tracker_states <= length (Track.Trackers_ T))%nat ->
    exists trs' tss',
      Track3D_track_dt T i0 j0 bboxes tracker_states time_step
      = Some (trs', tss') /\
      length trs' = length (Track.Trackers_ T) /\
      length tss' = length tracker_states /\
      (forall i, (i < length tracker_states)%nat ->
         exists tr ts,
           Track.Trackers_ T !! i = Some tr /\
           tracker_states !! i = Some ts /\
           trs' !! i = Some (update time_step [] tr) /\
           tss' !! i = Some (getStates (update time_step [] tr) ts)) /\
      (forall i, (length tracker_states <= i)%nat ->
         trs' !! i = Track.Trackers_ T !! i).
Proof.
  intros Tr ops T i0 j0 bboxes tracker_states time_step Hnone Hb1 Hb2.
  unfold Track3D_track_dt.
  rewrite (Track3D_sweep_total T bboxes i0 j0 Hnone). simpl.
  destruct (track_loop_runs time_step
              (replicate (length bboxes - i0) []) (Track.Trackers_ T)
              tracker_states)
    as (trs' & tss' & Hrun & Hl1 & Hl2 & Hout & Hin);
    [rewrite length_replicate; exact Hb1 | exact Hb2 |].
  exists trs', tss'. do 3 (split; [assumption|]). split; [|exact Hout].
  intros i Hi.
  destruct (Hin i Hi) as (st & tr & ts & Hst & Htr & Hts & Hnew & Hnew').
  apply lookup_replicate in Hst as [-> _]. exists tr, ts. auto.
Qed.

Lemma Track3D_track_without_accepted_boxes_witness :
  exists trs' tss',
    Track3D_track_dt sample_track3D 0 (fun _ => O)
      [[invalid_box3D]; [undersized_box3D]] [∅; ∅] (1 # 50)
    = Some (trs', tss') /\
    trs' !! 0%nat = Some [[]] /\ trs' !! 1%nat = Some [[]].
Proof.
  destruct (Track3D_track_without_accepted_boxes _ recording_tracker
              sample_track3D 0 (fun _ => O)
              [[invalid_box3D]; [undersized_box3D]] [∅; ∅] (1 # 50))
    as (trs' & tss' & Hrun & _ & _ & Hin & _).
  - intros [|[|i]] [|j] b _ _ Hb; simpl in Hb; try discriminate;
      inversion Hb; subst b; reflexivity.
  - simpl. lia.
  - simpl. lia.
  - exists trs', tss'. split; [exact Hrun|].
    destruct (Hin 0%nat) as (tr0 & ts0 & Htr0 & _ & Hnew0 & _); [simpl; lia|].
    destruct (Hin 1%nat) as (tr1 & ts1 & Htr1 & _ & Hnew1 & _); [simpl; lia|].
    vm_compute in Htr0, Htr1. inversion Htr0; inversion Htr1; subst.
    split; assumption.
Defined.

(** X10. [Track2D::track] stays in bounds exactly when [tracker_states] has
    no more entries than [cast2states] returned lists
    ([bboxes.size() - i0]) and no more than there are trackers.  When it
    does, it returns as many trackers and tracker states as it was given
    and leaves the trackers from [tracker_states.size()] on as they were. *)
Theorem track_in_bounds_iff :
  forall (Tr : Type) (ops : Tracker Tr) (T : Track.t Tr) (i0 : nat)
         (j0 : nat -> nat) (bboxes : list (list BoundingBox))
         (tracker_states : list TrackerStates) (time_step : Q),
    (is_Some (Track2D.track_dt T i0 j0 bboxes tracker_states time_step) <->
     (length tracker_states <= length bboxes - i0)%nat /\
     (length tracker_states <= length (Track.Trackers_ T))%nat)
    /\
    (forall trs' tss',
        Track2D.track_dt T i0 j0 bboxes tracker_states time_step
        = Some (trs', tss') ->
        length trs' = length (Track.Trackers_ T) /\
        length tss' = length tracker_states /\
        forall i, (length tracker_states <= i)%nat ->
                  trs' !! i = Track.Trackers_ T !! i).
Proof.
  intros Tr ops T i0 j0 bboxes tracker_states time_step.
  unfold Track2D.track_dt. rewrite Track2D_cast2states_sweep. simpl.
  set (states := imap _ _).
  assert (Hlen : length states = (length bboxes - i0)%nat)
    by (unfold states; rewrite length_imap, length_drop; reflexivity).
  split; [split|].
  - intros [r Hr]. apply track_loop_bounds in Hr. lia.
  - intros [Hb1 Hb2].
    destruct (track_loop_runs time_step states (Track.Trackers_ T)
                tracker_states) as (trs' & tss' & Hrun & _); try lia.
    eauto.
  - intros trs' tss' Hrun.
    apply (Track2D_track_dt_shape T i0 j0 bboxes tracker_states time_step).
    unfold Track2D.track_dt. rewrite Track2D_cast2states_sweep. exact Hrun.
Qed.

Lemma track_in_bounds_iff_witness :
  is_Some (Track2D.track_dt sample_track 0 (fun _ => O) two_classes [∅; ∅]
                            (1 # 50)) /\
  ~ is_Some (Track2D.track_dt sample_track 1 (fun _ => O) two_classes [∅; ∅]
                              (1 # 50)).
Proof.
  split.
  - apply (proj1 (track_in_bounds_iff _ _ sample_track 0 (fun _ => O)
                    two_classes [∅; ∅] (1 # 50))).
    simpl. lia.
  - intros Hsome.
    apply (proj1 (track_in_bounds_iff _ _ sample_track 1 (fun _ => O)
                    two_classes [∅; ∅] (1 # 50))) in Hsome.
    simpl in Hsome. lia.
Defined.

(** X11. A [Track2D] as its constructor leaves it has one tracker per
    class, each built from the same parameters.  Whatever values the
    counters of [cast2states] hold on entry ([i0] for the classes, [j0 c]
    for the boxes of class [c]), [track] on tracker states that are no
    more than the classes swept nor than [num_classes] stays in bounds and
    updates tracker [i], for every [i] below [tracker_states.size()], once:
    with the states of the accepted boxes of class [i0 + i] from box
    [j0 (i0 + i)] on.  The trackers after those are as the constructor
    built them. *)
Theorem constructed_Track2D_tracks_swept_classes :
  forall (Tr : Type) (ops : Tracker Tr)
         (det_p : DetectionParameters) (kal_p : KalmanParameters)
         (tra_p : TrackingParameters) (bbo_p : BBoxRejectionParameters)
         (i0 : nat) (j0 : nat -> nat)
         (bboxes : list (list BoundingBox))
         (tracker_states : list TrackerStates) (time_step : Q),
    (length tracker_states <= length bboxes - i0)%nat ->
    (length tracker_states <= num_classes det_p)%nat ->
    let T := Track.new det_p kal_p tra_p bbo_p in
    let fresh := new_Tracker (max_frames_to_skip tra_p)
                   (distance_thresh tra_p) (center_thresh tra_p)
                   (area_thresh tra_p) (body_ratio tra_p) (dt tra_p)
                   (use_dim kal_p) (use_vel kal_p)
                   (Q_diag kal_p) (R_diag kal_p) in
    exists trs' tss',
      Track2D.track_dt T i0 j0 bboxes tracker_states time_step
      = Some (trs', tss') /\
      length trs' = num_classes det_p /\
      (forall i, (i < length tracker_states)%nat ->
         exists row,
           bboxes !! (i0 + i)%nat = Some row /\
           trs' !! i
           = Some (update time_step
                     (class_states T (drop (j0 (i0 + i)%nat) row)) fresh)) /\
      (forall i, (length tracker_states <= i < num_classes det_p)%nat ->
         trs' !! i = Some fresh).
Proof.
  intros Tr ops det_p kal_p tra_p bbo_p i0 j0 bboxes tracker_states
         time_step Hbb Hts T fresh.
  assert (Htrs : Track.Trackers_ T = replicate (num_classes det_p) fresh)
    by reflexivity.
  destruct (track_dispatch_shifted T i0 j0 bboxes tracker_states time_step)
    as (trs' & tss' & Hrun & Hin).
  { exact Hbb. }
  { rewrite Htrs, length_replicate. exact Hts. }
  destruct (Track2D_track_dt_shape T i0 j0 bboxes tracker_states time_step
              trs' tss' Hrun) as (Hl & _ & Hout).
  exists trs', tss'. split; [exact Hrun|]. split; [|split].
  - rewrite Hl, Htrs, length_replicate. reflexivity.
  - intros i Hi.
    destruct (Hin i Hi) as (row & tr & Hrow & Htr & Hnew).
    rewrite Htrs in Htr. apply lookup_replicate in Htr as [-> _].
    exists row. auto.
  - intros i Hi. rewrite (Hout i) by lia. rewrite Htrs.
    apply lookup_replicate. split; [reflexivity | lia].
Qed.

(** The counter [j] of a run that enters at 0 and is not reset between
    the classes is 1 when the second class is reached: tracker 1 is
    updated with no detection although class 1 has an accepted box. *)
Lemma constructed_Track2D_tracks_swept_classes_witness :
  exists trs' tss',
    Track2D.track_dt sample_track 0 (fun c => c) two_classes [∅; ∅] (1 # 50)
    = Some (trs', tss') /\
    length trs' = 2%nat /\
    trs' !! 0%nat = Some [[state_of class0_box]] /\
    trs' !! 1%nat = Some [[]].
Proof.
  destruct (constructed_Track2D_tracks_swept_classes _ recording_tracker
              sample_det_p sample_kal_p sample_tra_p sample_bbo_p
              0 (fun c => c) two_classes [∅; ∅] (1 # 50))
    as (trs' & tss' & Hrun & Hlen & Hin & _).
  - simpl. lia.
  - simpl. lia.
  - exists trs', tss'. split; [exact Hrun|]. split; [exact Hlen|].
    destruct (Hin 0%nat) as (row0 & Hrow0 & Hnew0); [simpl; lia|].
    destruct (Hin 1%nat) as (row1 & Hrow1 & Hnew1); [simpl; lia|].
    simpl in Hrow0, Hrow1. inversion Hrow0; inversion Hrow1; subst.
    split; [exact Hnew0 | exact Hnew1].
Defined.

(** ** The bounds of make3DBoundingBoxes *)

Section Make3DBounds.
Variable fresh_valid : bool.
Variable PE_ : Locate.PoseEstimator.
Variable points : list (list (list Q)).
Variable bboxes : list (list BoundingBox).

Let box_at (i j : nat) : option BoundingBox3D.t :=
  p ← Vec.at2 points i j;
  b ← Vec.at2 bboxes i j;
  p2 ← p !! 2%nat;
  p0 ← p !! 0%nat;
  p1 ← p !! 1%nat;
  Some (BoundingBox3D.mk p0 p1 p2
          (p2 * w_ b / Locate.getFx PE_) (p2 * w_ b / Locate.getFx PE_)
          (p2 * h_ b / Locate.getFy PE_)
          (confidence_ b) (class_id_ b) fresh_valid).

Lemma box_at_Some_localizes (i j : nat) (p : list Q) :
  Vec.at2 points i j = Some p -> is_Some (box_at i j) ->
  (3 <= length p)%nat /\ is_Some (Vec.at2 bboxes i j).
Proof.
  intros Hp [x Hx]. unfold box_at in Hx. rewrite Hp in Hx. simpl in Hx.
  destruct (Vec.at2 bboxes i j) as [b|]; [|discriminate]. simpl in Hx.
  destruct (p !! 2%nat) as [p2|] eqn:H2; [|discriminate].
  apply lookup_lt_Some in H2. split; [lia | eauto].
Qed.

Lemma make3D_row_partial (i : nat) (row : list (list Q))
      (tmp : list BoundingBox3D.t) :
  points !! i = Some row ->
  Loop.for_ 0 (length row)
    (Locate.make3D_step fresh_valid PE_ points bboxes i) [] = Some tmp ->
  length tmp = length row /\
  forall j p, row !! j = Some p ->
    (3 <= length p)%nat /\ is_Some (Vec.at2 bboxes i j).
Proof.
  intros Hrow. unfold Loop.for_. rewrite Nat.sub_0_r.
  rewrite (iter_collect (box_at i))
    by (intros; apply make3D_step_box_at).
  destruct (mapM (box_at i) (seq 0 (length row))) as [xs|] eqn:E;
    [|discriminate].
  simpl. intros Htmp. inversion Htmp; subst tmp. split.
  - apply length_mapM in E. rewrite length_seq in E. congruence.
  - intros j p Hp.
    assert (Hj : (j < length row)%nat) by (eapply lookup_lt_Some; eauto).
    destruct (mapM_seq_lookup _ _ _ _ E Hj) as [_ Hsome].
    apply (box_at_Some_localizes i j p); [|exact Hsome].
    unfold Vec.at2. rewrite Hrow. exact Hp.
Qed.

Lemma make3D_partial (out : list (list BoundingBox3D.t)) :
  Locate.make3DBoundingBoxes fresh_valid PE_ points bboxes = Some out ->
  localized points bboxes /\
  Forall2 (fun row3 row => length row3 = length row) out points.
Proof.
  unfold Locate.make3DBoundingBoxes, Loop.for_. rewrite Nat.sub_0_r.
  set (G := fun i : nat =>
              row ← points !! i;
              Loop.iter (length row - 0) 0
                (Locate.make3D_step fresh_valid PE_ points bboxes i) []).
  rewrite (iter_collect G)
    by (intros k acc; unfold G; destruct (points !! k); reflexivity).
  destruct (mapM G (seq 0 (length points))) as [xs|] eqn:E; [|discriminate].
  simpl. intros Hout. inversion Hout; subst out.
  assert (Hrows : forall i row, points !! i = Some row ->
            exists tmp, xs !! i = Some tmp /\
              Loop.for_ 0 (length row)
                (Locate.make3D_step fresh_valid PE_ points bboxes i) []
              = Some tmp).
  { intros i row Hrow.
    assert (Hi : (i < length points)%nat) by (eapply lookup_lt_Some; eauto).
    destruct (mapM_seq_lookup _ _ _ _ E Hi) as [Hx [tmp Htmp]].
    exists tmp. rewrite Hx. split; [exact Htmp|].
    unfold G in Htmp. rewrite Hrow in Htmp. exact Htmp. }
  split.
  - intros i j p Hp. unfold Vec.at2 in Hp.
    destruct (points !! i) as [row|] eqn:Hrow; [|discriminate].
    destruct (Hrows i row Hrow) as (tmp & _ & Htmp).
    apply (proj2 (make3D_row_partial i row tmp Hrow Htmp) j p Hp).
  - apply Forall2_same_length_lookup. split.
    + apply length_mapM in E. rewrite length_seq in E. congruence.
    + intros i tmp row Htmp Hrow.
      destruct (Hrows i row Hrow) as (tmp' & Htmp' & Hrun).
      rewrite Htmp in Htmp'. inversion Htmp'; subst tmp'.
      apply (proj1 (make3D_row_partial i row tmp Hrow Hrun)).
Qed.

Lemma make3D_total :
  localized points bboxes ->
  is_Some (Locate.make3DBoundingBoxes fresh_valid PE_ points bboxes).
Proof.
  intros Hloc. unfold Locate.make3DBoundingBoxes, Loop.for_.
  rewrite Nat.sub_0_r.
  set (G := fun i : nat =>
              row ← points !! i;
              Loop.iter (length row - 0) 0
                (Locate.make3D_step fresh_valid PE_ points bboxes i) []).
  rewrite (iter_collect G)
    by (intros k acc; unfold G; destruct (points !! k); reflexivity).
  destruct (mapM G (seq 0 (length points))) as [xs|] eqn:E; [simpl; eauto|].
  exfalso. apply mapM_None_1, Exists_exists in E as (i & Hi & Hnone).
  apply elem_of_seq in Hi.
  destruct (lookup_lt_is_Some_2 points i) as [row Hrow]; [lia|].
  destruct (make3D_row fresh_valid PE_ points bboxes i row Hloc Hrow)
    as (tmp & Htmp & _).
  unfold G in Hnone. rewrite Hrow in Hnone. simpl in Hnone.
  unfold Loop.for_ in Htmp. congruence.
Qed.
End Make3DBounds.

(** X12. [Locate::make3DBoundingBoxes] stays in bounds exactly when every
    point has its three coordinates and a 2D box at its place; it then
    returns one list per class of [points], with one 3D box per point. *)
Theorem make3DBoundingBoxes_in_bounds_iff :
  forall (fresh_valid : bool) (PE_ : Locate.PoseEstimator)
         (points : list (list (list Q))) (bboxes : list (list BoundingBox)),
    (is_Some (Locate.make3DBoundingBoxes fresh_valid PE_ points bboxes) <->
     localized points bboxes)
    /\
    (forall out,
        Locate.make3DBoundingBoxes fresh_valid PE_ points bboxes = Some out ->
        Forall2 (fun row3 row => length row3 = length row) out points).
Proof.
  intros fresh_valid PE_ points bboxes. split; [split|].
  - intros [out Hout]. apply (make3D_partial _ _ _ _ out Hout).
  - apply make3D_total.
  - intros out Hout. apply (make3D_partial _ _ _ _ out Hout).
Qed.

Lemma make3DBoundingBoxes_in_bounds_iff_witness :
  is_Some (Locate.make3DBoundingBoxes true sample_pose sample_points
             [[sample_box]]) /\
  ~ is_Some (Locate.make3DBoundingBoxes true sample_pose [[[4 # 10; 0]]]
               [[sample_box]]).
Proof.
  split.
  - apply (proj1 (make3DBoundingBoxes_in_bounds_iff true sample_pose
                    sample_points [[sample_box]])).
    intros [|i] [|j] p Hp; simpl in Hp; try discriminate.
    inversion Hp; subst p. split; [simpl; lia | eexists; reflexivity].
  - intros Hsome.
    apply (proj1 (make3DBoundingBoxes_in_bounds_iff true sample_pose
                    [[[4 # 10; 0]]] [[sample_box]])) in Hsome.
    destruct (Hsome 0%nat 0%nat [4 # 10; 0] eq_refl) as [Hlen _].
    simpl in Hlen. lia.
Defined.

(** ** Drawing the tracks *)

Lemma for_each_app {A St} (body : A -> St -> option St) (l1 l2 : list A)
      (s : St) :
  Each.for_each (l1 ++ l2) body s
  = match Each.for_each l1 body s with
    | Some s' => Each.for_each l2 body s'
    | None => None
    end.
Proof.
  revert s. induction l1 as [|a l1 IH]; intros s; simpl; [reflexivity|].
  destruct (body a s); [apply IH | reflexivity].
Qed.

Lemma for_each_fmap {A B St} (f : B -> A) (body : A -> St -> option St)
      (l : list B) (s : St) :
  Each.for_each (f <$> l) body s = Each.for_each l (fun b => body (f b)) s.
Proof.
  revert s. induction l as [|b l IH]; intros s; simpl; [reflexivity|].
  destruct (body (f b) s); [apply IH | reflexivity].
Qed.

(** A range-based loop whose rounds append what [ov] gives for the
    element appends what it gives for all of them, in order, and faults
    when it gives nothing for one of them. *)
Lemma for_each_overlays {A Op} (ov : A -> option (list Op))
      (body : A -> list Op -> option (list Op)) :
  (forall a img, body a img = ops ← ov a; Some (img ++ ops)) ->
  forall l img,
    Each.for_each l body img = opss ← mapM ov l; Some (img ++ concat opss).
Proof.
  intros Hbody. induction l as [|a l IH]; intros img; simpl.
  - rewrite app_nil_r. reflexivity.
  - rewrite Hbody. destruct (ov a) as [ops|]; simpl; [|reflexivity].
    rewrite IH. destruct (mapM ov l) as [opss|]; simpl; [|reflexivity].
    rewrite app_assoc. reflexivity.
Qed.

(** The loop over the classes with a range-based loop inside is one
    range-based loop over the elements tagged with their class. *)
Lemma per_class_loops {M K Op} (order : M -> list (K * list Q))
      (step : nat -> K * list Q -> list Op -> option (list Op))
      (ts : list M) :
  forall n k img, (k + n = length ts)%nat ->
    Loop.iter n k
      (fun i img => m ← ts !! i; Each.for_each (order m) (step i) img) img
    = Each.for_each
        (concat (imap (fun j l => (fun e => ((k + j)%nat, e)) <$> l)
                      (order <$> drop k ts)))
        (fun t => step t.1 t.2) img.
Proof.
  induction n as [|n IH]; intros k img Hk; simpl.
  - rewrite drop_ge by lia. reflexivity.
  - destruct (lookup_lt_is_Some_2 ts k) as [m Hm]; [lia|].
    rewrite Hm, (drop_S ts m k Hm). simpl.
    rewrite for_each_app, for_each_fmap. simpl.
    rewrite Nat.add_0_r.
    destruct (Each.for_each (order m) (step k) img) as [img'|];
      [|reflexivity].
    rewrite IH by lia. f_equal. f_equal. apply imap_ext.
    intros j l _. simpl. apply list_fmap_ext. intros _ e _. f_equal. lia.
Qed.

Lemma loops_over_tracks {M K Op} (order : M -> list (K * list Q))
      (step : nat -> K * list Q -> list Op -> option (list Op))
      (ov : nat * (K * list Q) -> option (list Op)) (ts : list M)
      (image : list Op) :
  (forall t img, step t.1 t.2 img = ops ← ov t; Some (img ++ ops)) ->
  Loop.for_ 0 (length ts)
    (fun i img => m ← ts !! i; Each.for_each (order m) (step i) img) image
  = opss ← mapM ov (tracks_in_order (order <$> ts));
    Some (image ++ concat opss).
Proof.
  intros Hstep. unfold Loop.for_. rewrite Nat.sub_0_r.
  rewrite (per_class_loops order step ts (length ts) 0 image) by lia.
  rewrite drop_0.
  apply (for_each_overlays ov (fun t => step t.1 t.2) Hstep).
Qed.

Lemma Forall_tracks_in_order {K} (P : nat * (K * list Q) -> Prop)
      (per_class : list (list (K * list Q))) :
  Forall P (tracks_in_order per_class) <->
  forall i l e, per_class !! i = Some l -> e ∈ l -> P (i, e).
Proof.
  unfold tracks_in_order. rewrite Forall_concat, Forall_lookup. split.
  - intros Hall i l e Hl He.
    specialize (Hall i ((fun e => (i, e)) <$> l)).
    rewrite list_lookup_imap, Hl in Hall. specialize (Hall eq_refl).
    rewrite Forall_fmap, Forall_forall in Hall. apply (Hall e He).
  - intros Hall i tagged Htagged. rewrite list_lookup_imap in Htagged.
    destruct (per_class !! i) as [l|] eqn:Hl; [|discriminate].
    simpl in Htagged. inversion Htagged; subst tagged.
    rewrite Forall_fmap, Forall_forall. intros e He. apply (Hall i l e Hl He).
Qed.

Lemma elem_of_in_key_order (m : TrackerStates) (e : nat * list Q) :
  e ∈ Each.in_key_order m <-> m !! e.1 = Some e.2.
Proof.
  unfold Each.in_key_order.
  rewrite (merge_sort_Permutation Each.key_le (map_to_list m)).
  destruct e as [id s]. apply elem_of_map_to_list.
Qed.

Lemma elem_of_in_int_key_order (m : gmap Z (list Q)) (e : Z * list Q) :
  e ∈ Each.in_int_key_order m <-> m !! e.1 = Some e.2.
Proof.
  unfold Each.in_int_key_order.
  rewrite (merge_sort_Permutation Each.int_key_le (map_to_list m)).
  destruct e as [id s]. apply elem_of_map_to_list.
Qed.

Lemma at_int_is_Some {A} (v : list A) (k : Z) :
  is_Some (at_int v k) <-> (0 <= k < Z.of_nat (length v))%Z.
Proof.
  unfold at_int. destruct (Z.ltb_spec k 0) as [Hneg|Hpos].
  - split; [intros [? ?]; discriminate | lia].
  - rewrite lookup_lt_is_Some. lia.
Qed.

Section TrackDrawFacts.
Context {Scalar : Type}.
Variable ColorPalette : list Scalar.

Lemma TrackDraw_step_overlay (class_map : list string)
      (t : nat * (nat * list Q)) (img : list (TrackDrawOp Scalar)) :
  TrackDraw.step ColorPalette class_map t.1 t.2 img
  = ops ← track_overlay ColorPalette class_map t; Some (img ++ ops).
Proof.
  destruct t as [i [id s]]. unfold TrackDraw.step, track_overlay.
  cbn [fst snd]. generalize (id mod 24)%nat as k. intros k.
  destruct s as [|x [|y [|vx [|vy [|w [|h rest]]]]]]; try reflexivity.
  simpl.
  destruct (ColorPalette !! k) as [color|],
           (class_map !! i) as [name|]; simpl; try reflexivity.
  rewrite <- app_assoc. reflexivity.
Qed.

Lemma track_overlay_is_Some (class_map : list string) (i id : nat)
      (s : list Q) :
  is_Some (track_overlay ColorPalette class_map (i, (id, s))) <->
  (6 <= length s)%nat /\ (i < length class_map)%nat /\
  (id mod 24 < length ColorPalette)%nat.
Proof.
  rewrite <- !lookup_lt_is_Some. unfold track_overlay. cbn [fst snd].
  generalize (id mod 24)%nat as k. intros k.
  destruct s as [|x [|y [|vx [|vy [|w [|h rest]]]]]]; simpl;
    try (split; [intros [? ?]; discriminate | intros (Hlen & _); lia]).
  destruct (class_map !! i) as [name|],
           (ColorPalette !! k) as [color|]; simpl;
    split; try (intros [? ?]; discriminate); try (intros (_ & [? ?] & [? ?]);
    discriminate); intros; repeat split; eauto; lia.
Qed.

Lemma TrackDraw_node_step_overlay (ClassMap : list string)
      (t : nat * (Z * list Q)) (img : list (TrackDrawOp Scalar)) :
  TrackDraw.node_step ColorPalette ClassMap t.1 t.2 img
  = ops ← node_track_overlay ColorPalette ClassMap t; Some (img ++ ops).
Proof.
  destruct t as [i [id s]]. unfold TrackDraw.node_step, node_track_overlay.
  cbn [fst snd]. generalize (Z.rem id 24) as k. intros k.
  destruct s as [|x [|y [|vx [|vy [|h [|w rest]]]]]]; try reflexivity.
  simpl.
  destruct (at_int ColorPalette k) as [color|] eqn:Hcolor,
           (ClassMap !! i) as [name|] eqn:Hname; simpl;
    destruct rest as [|s6 [|s7 rest]]; simpl; try reflexivity.
  rewrite <- app_assoc. reflexivity.
Qed.

Lemma node_track_overlay_is_Some (ClassMap : list string) (i : nat) (id : Z)
      (s : list Q) :
  is_Some (node_track_overlay ColorPalette ClassMap (i, (id, s))) <->
  (8 <= length s)%nat /\ (i < length ClassMap)%nat /\
  (0 <= Z.rem id 24 < Z.of_nat (length ColorPalette))%Z.
Proof.
  rewrite <- at_int_is_Some, <- lookup_lt_is_Some.
  unfold node_track_overlay. cbn [fst snd].
  generalize (Z.rem id 24) as k. intros k.
  destruct s as [|x [|y [|vx [|vy [|h [|w [|s6 [|s7 rest]]]]]]]]; simpl;
    try (split; [intros [? ?]; discriminate | intros (Hlen & _); lia]).
  destruct (ClassMap !! i) as [name|],
           (at_int ColorPalette k) as [color|]; simpl;
    split; try (intros [? ?]; discriminate); try (intros (_ & [? ?] & [? ?]);
    discriminate); intros; repeat split; eauto; lia.
Qed.
End TrackDrawFacts.

(** X13. [Track2D::generateTrackingImage] and
    [Track3D::generateTrackingImage] draw, for every track, a rectangle
    and under it a label: class after class and, within a class, by
    increasing track id.  The rectangle has the corner (x - w/2, y - h/2)
    and the size (w, h) of the state, each converted to [int]; the label
    is the name of the class, a space and the id, at (x - w/2,
    y - h/2 - 10) converted to [int]; both have the colour of the palette
    at the id modulo 24.  Every access is in range exactly when each
    track has a state of at least 6 entries, a class with a name in
    [class_map_] and a colour at its id modulo 24. *)
Theorem generateTrackingImage_in_bounds_iff :
  forall (Scalar Tr : Type) (ColorPalette : list Scalar) (T : Track.t Tr)
         (tracker_states : list TrackerStates)
         (image : list (TrackDrawOp Scalar)),
    TrackDraw.generateTrackingImage ColorPalette T tracker_states image
    = (overlays ← mapM (track_overlay ColorPalette (Track.class_map_ T))
                       (tracks_in_order (Each.in_key_order <$> tracker_states));
       Some (image ++ concat overlays))
    /\
    (is_Some (TrackDraw.generateTrackingImage ColorPalette T tracker_states
                image) <->
     forall i m id s, tracker_states !! i = Some m -> m !! id = Some s ->
       (6 <= length s)%nat /\ (i < length (Track.class_map_ T))%nat /\
       (id mod 24 < length ColorPalette)%nat).
Proof.
  intros Scalar Tr ColorPalette T tracker_states image.
  assert (Heq : TrackDraw.generateTrackingImage ColorPalette T tracker_states
                  image
                = (overlays ← mapM (track_overlay ColorPalette
                                      (Track.class_map_ T))
                              (tracks_in_order
                                 (Each.in_key_order <$> tracker_states));
                   Some (image ++ concat overlays))).
  { apply (loops_over_tracks Each.in_key_order
             (TrackDraw.step ColorPalette (Track.class_map_ T))).
    apply TrackDraw_step_overlay. }
  split; [exact Heq|].
  rewrite Heq.
  destruct (mapM _ _) as [overlays|] eqn:Hmap; simpl.
  - split; [intros _|eauto].
    assert (Hall : is_Some (mapM (track_overlay ColorPalette
                                    (Track.class_map_ T))
                   (tracks_in_order (Each.in_key_order <$> tracker_states))))
      by (rewrite Hmap; eauto).
    rewrite mapM_is_Some, Forall_tracks_in_order in Hall.
    intros i m id s Hm Hs.
    apply track_overlay_is_Some.
    apply (Hall i (Each.in_key_order m) (id, s)).
    + rewrite list_lookup_fmap, Hm. reflexivity.
    + apply elem_of_in_key_order. exact Hs.
  - split; [intros [? ?]; discriminate|]. intros Hall. exfalso.
    assert (Hsome : is_Some (mapM (track_overlay ColorPalette
                                    (Track.class_map_ T))
                   (tracks_in_order (Each.in_key_order <$> tracker_states)))).
    { rewrite mapM_is_Some, Forall_tracks_in_order.
      intros i l [id s] Hl He. rewrite list_lookup_fmap in Hl.
      destruct (tracker_states !! i) as [m|] eqn:Hm; [|discriminate].
      simpl in Hl. inversion Hl; subst l.
      apply elem_of_in_key_order in He. simpl in He.
      apply track_overlay_is_Some. apply (Hall i m id s Hm He). }
    rewrite Hmap in Hsome. destruct Hsome as [? ?]; discriminate.
Qed.

(** Track 27 of class 0 from x = -10.5: the corner is at -10, the colour
    is the one at 27 mod 24 = 3.  A track of a third class, which has no
    name, is out of range. *)
Lemma generateTrackingImage_in_bounds_iff_witness :
  TrackDraw.generateTrackingImage sample_palette sample_track
    sample_tracker_states []
  = Some [TrackRectangle (-10) 50 41 100 3%nat;
          TrackLabel "drone 27" (-10) 40 3%nat]
  /\
  ~ is_Some (TrackDraw.generateTrackingImage sample_palette sample_track
               [∅; ∅; {[ 27%nat := sample_state ]}] []).
Proof.
  split.
  - rewrite (proj1 (generateTrackingImage_in_bounds_iff _ _ sample_palette
                      sample_track sample_tracker_states [])).
    vm_compute. reflexivity.
  - intros Hsome.
    pose proof (proj1 (proj2 (generateTrackingImage_in_bounds_iff _ _
                    sample_palette sample_track
                    [∅; ∅; {[ 27%nat := sample_state ]}] [])) Hsome)
      as Hall.
    destruct (Hall 2%nat {[ 27%nat := sample_state ]} 27%nat sample_state)
      as (_ & Hname & _); [reflexivity | apply lookup_singleton_eq |].
    simpl in Hname. lia.
Defined.

(** X14. The loop that draws the tracks in the in-image tracking node
    draws a rectangle and a label for every track, class after class and
    by increasing track id.  The rectangle takes the height of the state
    at index 4 and its width at index 5; the label is placed with the
    entries at indices 6 and 7.  Every access is in range exactly when
    each track has a state of at least 8 entries, a class with a name in
    [ClassMap] and an id whose remainder by 24, negative for a negative
    id, is the index of a colour. *)
Theorem node_tracking_overlay_in_bounds_iff :
  forall (Scalar : Type) (ColorPalette : list Scalar)
         (ClassMap : list string)
         (tracker_states : list (gmap Z (list Q)))
         (image : list (TrackDrawOp Scalar)),
    TrackDraw.node_loop ColorPalette ClassMap tracker_states image
    = (overlays ← mapM (node_track_overlay ColorPalette ClassMap)
                       (tracks_in_order
                          (Each.in_int_key_order <$> tracker_states));
       Some (image ++ concat overlays))
    /\
    (is_Some (TrackDraw.node_loop ColorPalette ClassMap tracker_states
                image) <->
     forall i m id s, tracker_states !! i = Some m -> m !! id = Some s ->
       (8 <= length s)%nat /\ (i < length ClassMap)%nat /\
       (0 <= Z.rem id 24 < Z.of_nat (length ColorPalette))%Z).
Proof.
  intros Scalar ColorPalette ClassMap tracker_states image.
  assert (Heq : TrackDraw.node_loop ColorPalette ClassMap tracker_states
                  image
                = (overlays ← mapM (node_track_overlay ColorPalette ClassMap)
                              (tracks_in_order
                                 (Each.in_int_key_order <$> tracker_states));
                   Some (image ++ concat overlays))).
  { apply (loops_over_tracks Each.in_int_key_order
             (TrackDraw.node_step ColorPalette ClassMap)).
    apply TrackDraw_node_step_overlay. }
  split; [exact Heq|].
  rewrite Heq.
  destruct (mapM _ _) as [overlays|] eqn:Hmap; simpl.
  - split; [intros _|eauto].
    assert (Hall : is_Some (mapM (node_track_overlay ColorPalette ClassMap)
                   (tracks_in_order
                      (Each.in_int_key_order <$> tracker_states))))
      by (rewrite Hmap; eauto).
    rewrite mapM_is_Some, Forall_tracks_in_order in Hall.
    intros i m id s Hm Hs.
    apply node_track_overlay_is_Some.
    apply (Hall i (Each.in_int_key_order m) (id, s)).
    + rewrite list_lookup_fmap, Hm. reflexivity.
    + apply elem_of_in_int_key_order. exact Hs.
  - split; [intros [? ?]; discriminate|]. intros Hall. exfalso.
    assert (Hsome : is_Some (mapM (node_track_overlay ColorPalette ClassMap)
                   (tracks_in_order
                      (Each.in_int_key_order <$> tracker_states)))).
    { rewrite mapM_is_Some, Forall_tracks_in_order.
      intros i l [id s] Hl He. rewrite list_lookup_fmap in Hl.
      destruct (tracker_states !! i) as [m|] eqn:Hm; [|discriminate].
      simpl in Hl. inversion Hl; subst l.
      apply elem_of_in_int_key_order in He. simpl in He.
      apply node_track_overlay_is_Some. apply (Hall i m id s Hm He). }
    rewrite Hmap in Hsome. destruct Hsome as [? ?]; discriminate.
Qed.

(** A six-entry state, as the [cast2states] of the node makes them, is too
    short for the label; an eight-entry state is drawn. *)
Lemma node_tracking_overlay_in_bounds_iff_witness :
  ~ is_Some (TrackDraw.node_loop sample_palette (class_map sample_det_p)
               sample_node_tracker_states [])
  /\
  TrackDraw.node_loop sample_palette (class_map sample_det_p)
    sample_node_long_states []
  = Some [TrackRectangle (-10) 50 41 100 3%nat;
          TrackLabel "drone 27" (-10) 40 3%nat].
Proof.
  split.
  - intros Hsome.
    pose proof (proj1 (proj2 (node_tracking_overlay_in_bounds_iff _
                    sample_palette (class_map sample_det_p)
                    sample_node_tracker_states [])) Hsome)
      as Hall.
    destruct (Hall 0%nat {[ 27%Z := sample_state ]} 27%Z sample_state)
      as (Hlen & _); [reflexivity | apply lookup_singleton_eq |].
    simpl in Hlen. lia.
  - rewrite (proj1 (node_tracking_overlay_in_bounds_iff _ sample_palette
                      (class_map sample_det_p) sample_node_long_states [])).
    vm_compute. reflexivity.
Defined.

(** ** The loops of the global tracking node *)

Lemma filter_take_S {A} (f : A -> bool) (l : list A) (k : nat) (x : A) :
  l !! k = Some x ->
  List.filter f (take (S k) l)
  = List.filter f (take k l) ++ (if f x then [x] else []).
Proof.
  intros Hk. rewrite (take_S_r l k x Hk), List.filter_app. simpl.
  destruct (f x); reflexivity.
Qed.



Lemma reads_take_S (bboxes : list (list BoundingBox)) (k : nat)
      (row : list BoundingBox) :
  bboxes !! k = Some row ->
  Draw.reads (fun n => n) (take (S k) bboxes)
  = Draw.reads (fun n => n) (take k bboxes)
    ++ ((fun j => (k, j)) <$> seq 0 (length row)).
Proof.
  intros Hrow. unfold Draw.reads.
  rewrite (take_S_r bboxes k row Hrow), imap_app, concat_app. simpl.
  rewrite length_take, app_nil_r.
  apply lookup_lt_Some in Hrow.
  replace (k `min` length bboxes + 0)%nat with k by lia. reflexivity.
Qed.

Section PublishFacts.
Variable bboxes : list (list BoundingBox).
Variable points : list (list (list Q)).
Variable det_id : nat.

Let keeps_id (s : Msg.PositionBoundingBox2D * list Msg.PositionBoundingBox2D)
  : Prop :=
  Msg.detection_id (Msg.bbox s.1) = det_id.

Let msg := message_at det_id bboxes points.

Lemma publish_step_cases (i j : nat) (row : list BoundingBox)
      (b : BoundingBox)
      (s : Msg.PositionBoundingBox2D * list Msg.PositionBoundingBox2D) :
  bboxes !! i = Some row -> row !! j = Some b -> keeps_id s ->
  (valid_ b = false /\ msg (i, j) = None /\
   GlobalNode.publish_step bboxes points i j s = Some s) \/
  (valid_ b = true /\ GlobalNode.point_at points i j = None /\
   GlobalNode.publish_step bboxes points i j s = None) \/
  (exists m, valid_ b = true /\ is_Some (GlobalNode.point_at points i j) /\
             msg (i, j) = Some m /\ keeps_id (m, s.2 ++ [m]) /\
             GlobalNode.publish_step bboxes points i j s
             = Some (m, s.2 ++ [m])).
Proof.
  intros Hrow Hb Hid. unfold keeps_id in *.
  unfold GlobalNode.publish_step, msg, message_at. simpl.
  rewrite (at2_lookup bboxes i j row Hrow), Hb. simpl.
  destruct (valid_ b); simpl; [|left; auto].
  destruct (GlobalNode.point_at points i j) as [pos|]; simpl.
  - right. right. rewrite Hid. eexists. repeat split; eauto.
  - right. left. auto.
Qed.

Lemma publish_row_total (i : nat) (row : list BoundingBox)
      (s : Msg.PositionBoundingBox2D * list Msg.PositionBoundingBox2D) :
  bboxes !! i = Some row -> keeps_id s ->
  (forall j b, row !! j = Some b -> valid_ b = true ->
               is_Some (GlobalNode.point_at points i j)) ->
  exists s',
    Loop.for_ 0 (length row) (GlobalNode.publish_step bboxes points i) s
    = Some s' /\
    keeps_id s' /\
    s'.2 = s.2 ++ omap msg ((fun j => (i, j)) <$> seq 0 (length row)).
Proof.
  intros Hrow Hid Hloc. unfold Loop.for_. rewrite Nat.sub_0_r.
  destruct (iter_inv_total
              (fun k s' =>
                 keeps_id s' /\
                 s'.2 = s.2 ++ omap msg ((fun j => (i, j)) <$> seq 0 k))
              (GlobalNode.publish_step bboxes points i) (length row) 0 s)
    as (s' & Hrun & Hinv).
  - split; [exact Hid|]. simpl. rewrite app_nil_r. reflexivity.
  - intros k s1 Hk [Hid1 Hvec1].
    destruct (lookup_lt_is_Some_2 row k) as [b Hb]; [lia|].
    rewrite seq_S, fmap_app, omap_app. simpl.
    destruct (publish_step_cases i k row b s1 Hrow Hb Hid1)
      as [(Hv & Hm & Hstep)|[(Hv & Hp & Hstep)|(m & Hv & Hp & Hm & Hid2 & Hstep)]].
    + exists s1. rewrite Hm, app_nil_r. auto.
    + destruct (Hloc k b Hb Hv) as [pos Hpos]. congruence.
    + exists (m, s1.2 ++ [m]). split; [exact Hstep|]. split; [exact Hid2|].
      simpl. rewrite Hm, Hvec1, <- app_assoc. reflexivity.
  - exists s'. auto.
Qed.

Lemma publish_row_partial (i : nat) (row : list BoundingBox)
      (s s' : Msg.PositionBoundingBox2D * list Msg.PositionBoundingBox2D) :
  bboxes !! i = Some row -> keeps_id s ->
  Loop.for_ 0 (length row) (GlobalNode.publish_step bboxes points i) s
  = Some s' ->
  keeps_id s' /\
  forall j b, row !! j = Some b -> valid_ b = true ->
              is_Some (GlobalNode.point_at points i j).
Proof.
  intros Hrow Hid. unfold Loop.for_. rewrite Nat.sub_0_r. intros Hrun.
  assert (Hinv :
    keeps_id s' /\
    forall j b, (j < 0 + length row)%nat -> row !! j = Some b ->
      valid_ b = true -> is_Some (GlobalNode.point_at points i j)).
  { apply (iter_inv_partial
             (fun k s1 =>
                keeps_id s1 /\
                forall j b, (j < k)%nat -> row !! j = Some b ->
                  valid_ b = true ->
                  is_Some (GlobalNode.point_at points i j))
             (GlobalNode.publish_step bboxes points i) (length row) 0 s s');
      [| |exact Hrun].
    - split; [exact Hid|]. intros j b Hj. lia.
    - intros k s1 s2 Hk [Hid1 Hprev] Hstep.
      destruct (lookup_lt_is_Some_2 row k) as [bk Hbk]; [lia|].
      assert (Hk_ok : keeps_id s2 /\
                      (valid_ bk = true ->
                       is_Some (GlobalNode.point_at points i k))).
      { destruct (publish_step_cases i k row bk s1 Hrow Hbk Hid1)
          as [(Hv & _ & Hs)|[(Hv & _ & Hs)|(m & Hv & Hp & _ & Hid2 & Hs)]];
          rewrite Hs in Hstep; try discriminate;
          inversion Hstep; subst s2.
        - split; [exact Hid1|]. congruence.
        - split; [exact Hid2|]. intros _. exact Hp. }
      destruct Hk_ok as [Hid2 Hpk]. split; [exact Hid2|].
      intros j b Hj Hb Hvb. destruct (decide (j = k)) as [->|Hne].
      + rewrite Hbk in Hb. inversion Hb; subst b. apply Hpk, Hvb.
      + apply (Hprev j b); [lia | assumption..]. }
  destruct Hinv as [Hid' Hall]. split; [exact Hid'|].
  intros j b Hb Hv.
  apply (Hall j b); [apply lookup_lt_Some in Hb; simpl; lia | exact Hb | exact Hv].
Qed.
End PublishFacts.

Lemma publish_total (ros_bbox0 : Msg.PositionBoundingBox2D)
      (bboxes : list (list BoundingBox)) (points : list (list (list Q))) :
  valid_localized bboxes points ->
  GlobalNode.publish_positions_bboxes ros_bbox0 bboxes points
  = Some (omap (message_at (Msg.detection_id (Msg.bbox ros_bbox0))
                           bboxes points)
               (Draw.reads (fun n => n) bboxes)).
Proof.
  intros Hloc. unfold GlobalNode.publish_positions_bboxes.
  unfold Loop.for_ at 1. rewrite Nat.sub_0_r.
  set (det_id := Msg.detection_id (Msg.bbox ros_bbox0)).
  destruct (iter_inv_total
              (fun k (s : Msg.PositionBoundingBox2D
                          * list Msg.PositionBoundingBox2D) =>
                 Msg.detection_id (Msg.bbox s.1) = det_id /\
                 s.2 = omap (message_at det_id bboxes points)
                            (Draw.reads (fun n => n) (take k bboxes)))
              (fun i s =>
                 row ← bboxes !! i;
                 Loop.for_ 0 (length row)
                   (GlobalNode.publish_step bboxes points i) s)
              (length bboxes) 0 (ros_bbox0, []))
    as (s' & Hrun & _ & Hvec).
  - split; reflexivity.
  - intros k s1 Hk [Hid1 Hvec1].
    destruct (lookup_lt_is_Some_2 bboxes k) as [row Hrow]; [lia|].
    rewrite Hrow. simpl.
    destruct (publish_row_total bboxes points det_id k row s1 Hrow Hid1)
      as (s2 & Hs2 & Hid2 & Hvec2).
    + intros j b Hb Hv. apply (Hloc k j b); [|exact Hv].
      rewrite (at2_lookup bboxes k j row Hrow). exact Hb.
    + exists s2. split; [exact Hs2|]. split; [exact Hid2|].
      rewrite (reads_take_S bboxes k row Hrow), omap_app, <- Hvec1. exact Hvec2.
  - rewrite Hrun. simpl. rewrite Hvec. simpl. rewrite take_ge by lia.
    reflexivity.
Qed.

Lemma publish_partial (ros_bbox0 : Msg.PositionBoundingBox2D)
      (bboxes : list (list BoundingBox)) (points : list (list (list Q)))
      (out : list Msg.PositionBoundingBox2D) :
  GlobalNode.publish_positions_bboxes ros_bbox0 bboxes points = Some out ->
  valid_localized bboxes points.
Proof.
  unfold GlobalNode.publish_positions_bboxes. intros Hrun.
  destruct (Loop.for_ 0 (length bboxes) _ _) as [r|] eqn:Hloop; [|discriminate].
  clear Hrun. unfold Loop.for_ at 1 in Hloop. rewrite Nat.sub_0_r in Hloop.
  set (det_id := Msg.detection_id (Msg.bbox ros_bbox0)).
  assert (Hinv :
    Msg.detection_id (Msg.bbox r.1) = det_id /\
    forall i row j b, (i < 0 + length bboxes)%nat -> bboxes !! i = Some row ->
      row !! j = Some b -> valid_ b = true ->
      is_Some (GlobalNode.point_at points i j)).
  { apply (iter_inv_partial
             (fun k (s : Msg.PositionBoundingBox2D
                         * list Msg.PositionBoundingBox2D) =>
                Msg.detection_id (Msg.bbox s.1) = det_id /\
                forall i row j b, (i < k)%nat -> bboxes !! i = Some row ->
                  row !! j = Some b -> valid_ b = true ->
                  is_Some (GlobalNode.point_at points i j))
             (fun i s =>
                row ← bboxes !! i;
                Loop.for_ 0 (length row)
                  (GlobalNode.publish_step bboxes points i) s)
             (length bboxes) 0 (ros_bbox0, []) r); [| |exact Hloop].
    - split; [reflexivity|]. intros i row j b Hi. lia.
    - intros k s1 s2 Hk [Hid1 Hprev] Hstep.
      destruct (bboxes !! k) as [rowk|] eqn:Hrowk; [|discriminate].
      simpl in Hstep.
      destruct (publish_row_partial bboxes points det_id k rowk s1 s2
                  Hrowk Hid1 Hstep) as [Hid2 Hrow_ok].
      split; [exact Hid2|].
      intros i row j b Hi Hrow Hb Hv. destruct (decide (i = k)) as [->|Hne].
      + rewrite Hrowk in Hrow. inversion Hrow; subst row.
        apply (Hrow_ok j b Hb Hv).
      + apply (Hprev i row j b); [lia | assumption..]. }
  destruct Hinv as [_ Hall]. intros i j b Hb Hv. unfold Vec.at2 in Hb.
  destruct (bboxes !! i) as [row|] eqn:Hrow; [|discriminate].
  apply (Hall i row j b); try assumption.
  apply lookup_lt_Some in Hrow. simpl. lia.
Qed.

(** X16. The loops of the global tracking node that fill the message with
    boxes and positions stay in bounds exactly when every valid box has a
    point with three coordinates at its place; boxes that are not valid need
    none.  They then publish, class after class and box after box, one
    message per valid box: corner (x_min, y_min), height, width, the index
    of the class as class id, the point as position, and the detection id
    the message had when it was constructed. *)
Theorem publish_positions_bboxes_spec :
  forall (ros_bbox0 : Msg.PositionBoundingBox2D)
         (bboxes : list (list BoundingBox)) (points : list (list (list Q))),
    (is_Some (GlobalNode.publish_positions_bboxes ros_bbox0 bboxes points) <->
     valid_localized bboxes points)
    /\
    (forall out,
        GlobalNode.publish_positions_bboxes ros_bbox0 bboxes points = Some out ->
        out = omap (message_at (Msg.detection_id (Msg.bbox ros_bbox0))
                               bboxes points)
                   (Draw.reads (fun n => n) bboxes)).
Proof.
  intros ros_bbox0 bboxes points. split; [split|].
  - intros [out Hout]. apply (publish_partial ros_bbox0 bboxes points out Hout).
  - intros Hloc. rewrite (publish_total ros_bbox0 bboxes points Hloc). eauto.
  - intros out Hout.
    pose proof (publish_partial ros_bbox0 bboxes points out Hout) as Hloc.
    rewrite (publish_total ros_bbox0 bboxes points Hloc) in Hout.
    inversion Hout. reflexivity.
Qed.

Lemma publish_positions_bboxes_spec_witness :
  is_Some (GlobalNode.publish_positions_bboxes sample_ros_bbox
             [[sample_box; invalid_box]] [[[4 # 10; 0; 2]]]) /\
  ~ is_Some (GlobalNode.publish_positions_bboxes sample_ros_bbox
               [[sample_box; invalid_box]] [[]]).
Proof.
  split.
  - apply (proj1 (publish_positions_bboxes_spec sample_ros_bbox
                    [[sample_box; invalid_box]] [[[4 # 10; 0; 2]]])).
    intros [|i] [|[|j]] b Hb Hv; simpl in Hb; try discriminate.
    + eexists. reflexivity.
    + inversion Hb; subst b. discriminate Hv.
  - intros Hsome.
    apply (proj1 (publish_positions_bboxes_spec sample_ros_bbox
                    [[sample_box; invalid_box]] [[]])) in Hsome.
    destruct (Hsome 0%nat 0%nat sample_box eq_refl eq_refl) as [pos Hpos].
    discriminate Hpos.
Defined.

Section IdsFacts.
Variable bboxes : list (list BoundingBox).
Variable points : list (list (list Q)).

(** The two vectors have [counter] entries and entry [k] of each carries
    the detection id [k]. *)
Let numbered (s : GlobalNode.ids_state) : Prop :=
  length (GlobalNode.vec_ros_bboxes s) = GlobalNode.counter s /\
  length (GlobalNode.vec_id_positions s) = GlobalNode.counter s /\
  forall k, (k < GlobalNode.counter s)%nat ->
    exists box idp,
      GlobalNode.vec_ros_bboxes s !! k = Some box /\
      GlobalNode.vec_id_positions s !! k = Some idp /\
      Msg.detection_id box = k /\ Msg.id_detection_id idp = k.

Lemma ids_step_numbered (i j : nat) (row : list BoundingBox)
      (b : BoundingBox) (s s' : GlobalNode.ids_state) :
  bboxes !! i = Some row -> row !! j = Some b -> numbered s ->
  GlobalNode.ids_step bboxes points i j s = Some s' ->
  numbered s' /\
  GlobalNode.counter s'
  = (GlobalNode.counter s + length (List.filter valid_ [b]))%nat.
Proof.
  intros Hrow Hb (Hl1 & Hl2 & Hnum). unfold GlobalNode.ids_step.
  rewrite (at2_lookup bboxes i j row Hrow), Hb. simpl.
  destruct (valid_ b); simpl.
  - destruct (GlobalNode.point_at points i j) as [pos|]; [|discriminate].
    simpl. intros Hs. inversion Hs; subst s'. clear Hs. simpl.
    split; [|lia]. unfold numbered. simpl.
    rewrite !length_app, Hl1, Hl2. simpl.
    split; [lia|]. split; [lia|].
    intros k Hk. destruct (decide (k = GlobalNode.counter s)) as [->|Hne].
    + eexists _, _.
      split; [rewrite lookup_app_r by lia; rewrite Hl1, Nat.sub_diag;
              reflexivity|].
      split; [rewrite lookup_app_r by lia; rewrite Hl2, Nat.sub_diag;
              reflexivity|].
      split; reflexivity.
    + destruct (Hnum k) as (box & idp & H1 & H2 & H3 & H4); [lia|].
      exists box, idp.
      split; [apply lookup_app_l_Some; exact H1|].
      split; [apply lookup_app_l_Some; exact H2|]. auto.
  - intros Hs. inversion Hs; subst s'. split; [|lia].
    repeat split; assumption.
Qed.

Lemma ids_row_numbered (i : nat) (row : list BoundingBox)
      (s s' : GlobalNode.ids_state) :
  bboxes !! i = Some row -> numbered s ->
  Loop.for_ 0 (length row) (GlobalNode.ids_step bboxes points i) s = Some s' ->
  numbered s' /\
  GlobalNode.counter s'
  = (GlobalNode.counter s + length (List.filter valid_ row))%nat.
Proof.
  intros Hrow Hnum. unfold Loop.for_. rewrite Nat.sub_0_r. intros Hrun.
  assert (Hinv :
    numbered s' /\
    GlobalNode.counter s'
    = (GlobalNode.counter s
       + length (List.filter valid_ (take (0 + length row) row)))%nat).
  { apply (iter_inv_partial
             (fun k s1 =>
                numbered s1 /\
                GlobalNode.counter s1
                = (GlobalNode.counter s
                   + length (List.filter valid_ (take k row)))%nat)
             (GlobalNode.ids_step bboxes points i) (length row) 0 s s');
      [| |exact Hrun].
    - split; [exact Hnum|]. simpl. lia.
    - intros k s1 s2 Hk [Hnum1 Hc1] Hstep.
      destruct (lookup_lt_is_Some_2 row k) as [b Hb]; [lia|].
      destruct (ids_step_numbered i k row b s1 s2 Hrow Hb Hnum1 Hstep)
        as [Hnum2 Hc2].
      split; [exact Hnum2|].
      rewrite Hc2, Hc1, (filter_take_S valid_ row k b Hb), length_app.
      simpl. destruct (valid_ b); simpl; lia. }
  destruct Hinv as [Hnum' Hc]. split; [exact Hnum'|].
  rewrite take_ge in Hc by (simpl; lia). exact Hc.
Qed.
End IdsFacts.

(** X17. The loops of the global tracking node compiled without
    [PUBLISH_DETECTION_WITH_POSITION] number the detections: when they run
    to completion, the counter is the number of valid boxes, the vector of
    boxes and the vector of positions both have that many entries, and the
    entries at place [k] of the two vectors both carry the detection id
    [k]. *)
Theorem publish_ids_numbers_detections :
  forall (ros_bbox0 : Msg.BoundingBox2D) (id_position0 : Msg.PositionID)
         (bboxes : list (list BoundingBox)) (points : list (list (list Q)))
         (s : GlobalNode.ids_state),
    GlobalNode.publish_ids ros_bbox0 id_position0 bboxes points = Some s ->
    GlobalNode.counter s = length (List.filter valid_ (concat bboxes)) /\
    length (GlobalNode.vec_ros_bboxes s) = GlobalNode.counter s /\
    length (GlobalNode.vec_id_positions s) = GlobalNode.counter s /\
    forall k, (k < GlobalNode.counter s)%nat ->
      exists box idp,
        GlobalNode.vec_ros_bboxes s !! k = Some box /\
        GlobalNode.vec_id_positions s !! k = Some idp /\
        Msg.detection_id box = k /\ Msg.id_detection_id idp = k.
Proof.
  intros ros_bbox0 id_position0 bboxes points s.
  unfold GlobalNode.publish_ids, Loop.for_ at 1. rewrite Nat.sub_0_r.
  intros Hrun.
  assert (Hinv :
    (length (GlobalNode.vec_ros_bboxes s) = GlobalNode.counter s /\
     length (GlobalNode.vec_id_positions s) = GlobalNode.counter s /\
     forall k, (k < GlobalNode.counter s)%nat ->
       exists box idp,
         GlobalNode.vec_ros_bboxes s !! k = Some box /\
         GlobalNode.vec_id_positions s !! k = Some idp /\
         Msg.detection_id box = k /\ Msg.id_detection_id idp = k) /\
    GlobalNode.counter s
    = length (List.filter valid_ (concat (take (0 + length bboxes) bboxes)))).
  { refine (iter_inv_partial
             (fun k s1 =>
                (length (GlobalNode.vec_ros_bboxes s1) = GlobalNode.counter s1 /\
                 length (GlobalNode.vec_id_positions s1) = GlobalNode.counter s1 /\
                 forall k, (k < GlobalNode.counter s1)%nat ->
                   exists box idp,
                     GlobalNode.vec_ros_bboxes s1 !! k = Some box /\
                     GlobalNode.vec_id_positions s1 !! k = Some idp /\
                     Msg.detection_id box = k /\ Msg.id_detection_id idp = k) /\
                GlobalNode.counter s1
                = length (List.filter valid_ (concat (take k bboxes))))
             _ _ _ _ _ _ _ Hrun).
    - simpl. repeat split; try reflexivity. intros k Hk. lia.
    - intros k s1 s2 Hk [Hnum1 Hc1] Hstep.
      destruct (bboxes !! k) as [row|] eqn:Hrow; [|discriminate].
      simpl in Hstep.
      destruct (ids_row_numbered bboxes points k row s1 s2 Hrow Hnum1 Hstep)
        as [Hnum2 Hc2].
      split; [exact Hnum2|].
      rewrite Hc2, Hc1, (take_S_r bboxes k row Hrow), concat_app.
      rewrite List.filter_app, length_app. simpl. rewrite app_nil_r.
      reflexivity. }
  destruct Hinv as [(H1 & H2 & H3) Hc].
  rewrite take_ge in Hc by (simpl; lia). auto.
Qed.

Lemma publish_ids_numbers_detections_witness :
  exists s,
    GlobalNode.publish_ids (Msg.mkBoundingBox2D 0 0 0 0 0 0) sample_id_position
      [[sample_box; invalid_box]; [class1_box]]
      [[[4 # 10; 0; 2]; []]; [[1; 1; 3]]] = Some s /\
    GlobalNode.counter s = 2%nat /\
    length (GlobalNode.vec_ros_bboxes s) = 2%nat.
Proof.
  destruct (GlobalNode.publish_ids (Msg.mkBoundingBox2D 0 0 0 0 0 0)
              sample_id_position [[sample_box; invalid_box]; [class1_box]]
              [[[4 # 10; 0; 2]; []]; [[1; 1; 3]]]) as [s|] eqn:Hrun;
    [|vm_compute in Hrun; discriminate].
  exists s. split; [reflexivity|].
  destruct (publish_ids_numbers_detections _ _ _ _ s Hrun) as (Hc & Hl & _).
  rewrite Hl, Hc. split; reflexivity.
Defined.
